(** * pattern_file_recognizer: the recognizer of [recognizer.py]

    A shallow embedding of [PatternFileRecognizer]: the constructor
    ([__init__], with the loaders [_load_patterns], [_load_allowlist],
    [_load_file], [_load_txt] and [_load_csv]) and [analyze].

    Python strings are [string]s; text positions are [nat]s.  The character
    tables ([isspace], [lower]) are the ASCII ones: the model is about ASCII
    text.  File access is a small reader/trace/error monad over a read-only
    file system, so that what a call touches can be stated. *)

From Stdlib Require Import String Ascii List Arith Lia Sorted QArith_base.
From stdpp Require Import base option list strings gmap.

#[local] Set Warnings "-clear-no-such-hyp".

Import ListNotations.
Local Open Scope string_scope.
Local Open Scope list_scope.

Set Default Proof Using "Type".

(** ** Python string primitives (ASCII) *)

Module PyStr.

Definition code (c : ascii) : nat := nat_of_ascii c.

Definition between (lo hi : nat) (c : ascii) : bool :=
  Nat.leb lo (code c) && Nat.leb (code c) hi.

(** [str.isspace] on one character: TAB..CR, FS..US and the blank. *)
Definition isspace (c : ascii) : bool :=
  between 9 13 c || between 28 32 c.

Definition isupper (c : ascii) : bool := between 65 90 c.
Definition isalpha (c : ascii) : bool := between 65 90 c || between 97 122 c.
Definition isdigit (c : ascii) : bool := between 48 57 c.
Definition isalnum (c : ascii) : bool := isalpha c || isdigit c.

Definition lower_char (c : ascii) : ascii :=
  if isupper c then ascii_of_nat (code c + 32) else c.

(** [s.lower()] *)
Fixpoint lower (s : string) : string :=
  match s with
  | EmptyString => EmptyString
  | String c s' => String (lower_char c) (lower s')
  end.

Fixpoint lstrip (s : string) : string :=
  match s with
  | EmptyString => EmptyString
  | String c s' => if isspace c then lstrip s' else s
  end.

(** [rstrip] keeps a character when it is not a blank or when something
    that is kept follows it. *)
Fixpoint rstrip (s : string) : string :=
  match s with
  | EmptyString => EmptyString
  | String c s' =>
      match rstrip s' with
      | EmptyString => if isspace c then EmptyString else String c EmptyString
      | r => String c r
      end
  end.

(** [s.strip()] *)
Definition strip (s : string) : string := rstrip (lstrip s).

(** [s.startswith(p)] *)
Definition startswith (p s : string) : bool := String.prefix p s.

(** Truth value of a string: non-empty. *)
Definition truthy (s : string) : bool :=
  match s with EmptyString => false | String _ _ => true end.

Definition LF : ascii := ascii_of_nat 10.
Definition CR : ascii := ascii_of_nat 13.

(** Iterating over a file opened in text mode with the default [newline]:
    the lines, each with its line end, where CR LF and a lone CR count as
    line ends and are read as LF.  [cur] is the line read so far,
    reversed. *)
Fixpoint readlines_from (cur : list ascii) (s : string) : list string :=
  let emit := string_of_list_ascii (rev (LF :: cur)) in
  match s with
  | EmptyString =>
      match cur with
      | [] => []
      | _ => [string_of_list_ascii (rev cur)]
      end
  | String c s' =>
      if Ascii.eqb c LF then emit :: readlines_from [] s'
      else if Ascii.eqb c CR then
        match s' with
        | String c' s'' =>
            if Ascii.eqb c' LF then emit :: readlines_from [] s''
            else emit :: readlines_from [] s'
        | EmptyString => [emit]
        end
      else readlines_from (c :: cur) s'
  end.

Definition readlines (content : string) : list string :=
  readlines_from [] content.

End PyStr.

(** ** Errors, the file system and the effect monad *)

(** The exceptions the constructor raises. *)
Inductive exn :=
| ValueError (msg : string)
| FileNotFoundError (msg : string).

(** What a call does to the file system: [path.exists()] and [open(path)]. *)
Inductive fs_event :=
| PathExists (path : string)
| OpenRead (path : string).

(** A read-only file system: the decoded text of each existing file. *)
Definition filesystem := string -> option string.

Inductive outcome (A : Type) :=
| Return (a : A)
| Raise (e : exn).
Arguments Return {A} a.
Arguments Raise {A} e.

(** A computation reads the file system, extends the trace of accesses and
    returns a value or raises. *)
Definition IO (A : Type) : Type :=
  filesystem -> list fs_event -> outcome A * list fs_event.

Definition ret {A} (a : A) : IO A := fun _ tr => (Return a, tr).

Definition raise {A} (e : exn) : IO A := fun _ tr => (Raise e, tr).

Definition bind {A B} (m : IO A) (k : A -> IO B) : IO B :=
  fun fs tr =>
    match m fs tr with
    | (Return a, tr') => k a fs tr'
    | (Raise e, tr') => (Raise e, tr')
    end.

Notation "x <- m ;; k" := (bind m (fun x => k))
  (at level 100, m at next level, right associativity).

Definition path_exists (path : string) : IO bool :=
  fun fs tr => (Return (bool_decide (is_Some (fs path))), tr ++ [PathExists path]).

Definition open_read (path : string) : IO string :=
  fun fs tr =>
    match fs path with
    | Some content => (Return content, tr ++ [OpenRead path])
    | None => (Raise (FileNotFoundError path), tr ++ [OpenRead path])
    end.

(** ** The libraries the recognizer is written against *)

(** One row of [csv.DictReader]: the value under each field name, [None]
    where the row is short. *)
Definition csv_row := string -> option string.

Record csv_reader := {
  fieldnames : option (list string);
  rows : list csv_row
}.

(** [pathlib] and [csv]: [Path(p).suffix], [str(Path(p))] (the path as
    [pathlib] writes it, which is what a message shows of a path) and
    [csv.DictReader(f)] on the text of a file. *)
Class Platform := {
  path_suffix : string -> string;
  path_text : string -> string;
  DictReader : string -> csv_reader
}.

(** [flashtext.KeywordProcessor] as the recognizer uses it: the constructor,
    [add_keywords_from_list] and [extract_keywords(text, span_info=True)],
    which returns (name, start, end) triples and the processor after the
    call.  The calls are taken to return: on a list of strings and on a
    string none of them raises. *)
Class KeywordLibrary := {
  KeywordProcessor : Type;
  new_KeywordProcessor : bool -> KeywordProcessor;
  add_keywords_from_list : list string -> KeywordProcessor -> KeywordProcessor;
  extract_keywords :
    string -> KeywordProcessor -> list (string * nat * nat) * KeywordProcessor
}.

(** ** An insertion-ordered dictionary, for [dict.fromkeys] *)

Definition pydict (V : Type) := list (string * V).

Fixpoint dict_setitem {V} (d : pydict V) (k : string) (v : V) : pydict V :=
  match d with
  | [] => [(k, v)]
  | (k', v') :: d' =>
      if String.eqb k' k then (k', v) :: d' else (k', v') :: dict_setitem d' k v
  end.

(** [dict.fromkeys(l)]: every key of [l] set to [None], in turn. *)
Definition dict_fromkeys (l : list string) : pydict unit :=
  fold_left (fun d k => dict_setitem d k tt) l [].

(** [list(d)]: the keys in insertion order. *)
Definition dict_keys {V} (d : pydict V) : list string := map fst d.

(** ** The recognizer *)

Inductive FileSpec :=
| PathOnly (path : string)
| PathColumn (path column : string).

Record RecognizerResult := {
  entity_type : string;
  start : nat;
  end_ : nat;
  score : Q
}.

Section Recognizer.
Context {platform : Platform} {library : KeywordLibrary}.

Record PatternFileRecognizer := {
  supported_entities : list string;
  supported_language : string;
  self_entity_type : string;
  csv_column : string;
  case_sensitive : bool;
  keyword_processor : KeywordProcessor
}.

Definition quote (s : string) : string := "'" ++ s ++ "'".

(** [repr] of a list of plain strings. *)
Definition repr_list (l : list string) : string :=
  "[" ++ String.concat ", " (map quote l) ++ "]".

(** The loop of [_load_txt] over the lines of the file. *)
Fixpoint load_txt_lines (lines : list string) (patterns : list string)
  : list string :=
  match lines with
  | [] => patterns
  | line :: lines' =>
      let line := PyStr.strip line in
      if PyStr.truthy line && negb (PyStr.startswith "#" line)
      then load_txt_lines lines' (patterns ++ [line])
      else load_txt_lines lines' patterns
  end.

Definition _load_txt (path : string) : IO (list string) :=
  content <- open_read path ;;
  ret (load_txt_lines (PyStr.readlines content) []).

(** The loop of [_load_csv] over the rows. *)
Fixpoint load_csv_rows (column : string) (rs : list csv_row)
    (patterns : list string) : list string :=
  match rs with
  | [] => patterns
  | row :: rs' =>
      match row column with
      | Some value =>
          if PyStr.truthy value && PyStr.truthy (PyStr.strip value)
          then load_csv_rows column rs' (patterns ++ [PyStr.strip value])
          else load_csv_rows column rs' patterns
      | None => load_csv_rows column rs' patterns
      end
  end.

Definition _load_csv (path column : string) : IO (list string) :=
  content <- open_read path ;;
  let reader := DictReader content in
  match fieldnames reader with
  | Some names =>
      if bool_decide (column ∈ names)
      then ret (load_csv_rows column (rows reader) [])
      else raise (ValueError
             ("Column '" ++ column ++ "' not found in " ++ path_text path ++
              ". Available columns: " ++ repr_list names))
  | None =>
      raise (ValueError
        ("Column '" ++ column ++ "' not found in " ++ path_text path ++
         ". Available columns: " ++ repr_list []))
  end.

Definition _load_file (self_csv_column : string) (file_spec : FileSpec)
  : IO (list string) :=
  let '(path_str, column) :=
    match file_spec with
    | PathColumn path_str column => (path_str, column)
    | PathOnly path_str => (path_str, self_csv_column)
    end in
  found <- path_exists path_str ;;
  if negb found
  then raise (FileNotFoundError ("File not found: " ++ path_text path_str))
  else if String.eqb (PyStr.lower (path_suffix path_str)) ".csv"
  then _load_csv path_str column
  else _load_txt path_str.

(** The loop of [_load_patterns]: [patterns.extend(...)] per file. *)
Fixpoint load_patterns_loop (self_csv_column : string)
    (files : list FileSpec) (patterns : list string) : IO (list string) :=
  match files with
  | [] => ret patterns
  | file_spec :: files' =>
      loaded <- _load_file self_csv_column file_spec ;;
      load_patterns_loop self_csv_column files' (patterns ++ loaded)
  end.

Definition _load_patterns (self_csv_column : string) (files : list FileSpec)
  : IO (list string) :=
  patterns <- load_patterns_loop self_csv_column files [] ;;
  ret (dict_keys (dict_fromkeys patterns)).

(** The loop of [_load_allowlist]: [allowlist.update(...)] per file. *)
Fixpoint load_allowlist_loop (self_csv_column : string)
    (files : list FileSpec) (allowlist : gset string) : IO (gset string) :=
  match files with
  | [] => ret allowlist
  | file_spec :: files' =>
      loaded <- _load_file self_csv_column file_spec ;;
      load_allowlist_loop self_csv_column files'
        (allowlist ∪ list_to_set loaded)
  end.

Definition _load_allowlist (self_csv_column : string)
    (files : list FileSpec) : IO (gset string) :=
  load_allowlist_loop self_csv_column files ∅.

(** Lines 37-43 of [__init__]: the patterns that are not allowlisted. *)
Definition filter_allowlisted (case_sensitive : bool)
    (allowlist : gset string) (patterns : list string) : list string :=
  if case_sensitive
  then filter (fun p => p ∉ allowlist) patterns
  else
    let allowlist_lower : gset string := set_map PyStr.lower allowlist in
    filter (fun p => PyStr.lower p ∉ allowlist_lower) patterns.

Definition __init__ (patterns_files : list FileSpec) (entity_type : string)
    (allowlist_files : option (list FileSpec)) (csv_column : string)
    (case_sensitive : bool) : IO PatternFileRecognizer :=
  match patterns_files with
  | [] => raise (ValueError "patterns_files must be non-empty")
  | _ =>
      let keyword_processor := new_KeywordProcessor case_sensitive in
      allowlist <- _load_allowlist csv_column (default [] allowlist_files) ;;
      patterns <- _load_patterns csv_column patterns_files ;;
      let filtered_patterns :=
        filter_allowlisted case_sensitive allowlist patterns in
      ret {| supported_entities := [entity_type];
             supported_language := "en";
             self_entity_type := entity_type;
             csv_column := csv_column;
             case_sensitive := case_sensitive;
             keyword_processor :=
               add_keywords_from_list filtered_patterns keyword_processor |}
  end.

(** The loop of [analyze] over the matches. *)
Fixpoint analyze_loop (entity : string) (matches : list (string * nat * nat))
    (results : list RecognizerResult) : list RecognizerResult :=
  match matches with
  | [] => results
  | (_name, start, end_) :: matches' =>
      let result := {| entity_type := entity; start := start;
                       end_ := end_; score := 1%Q |} in
      analyze_loop entity matches' (results ++ [result])
  end.

(** [analyze] returns the results and the recognizer after the call. *)
Definition analyze {NlpArtifacts : Type} (text : string)
    (entities : list string) (nlp_artifacts : NlpArtifacts)
    (self : PatternFileRecognizer)
  : list RecognizerResult * PatternFileRecognizer :=
  let '(matches, processor) :=
    extract_keywords text (keyword_processor self) in
  let self := {| supported_entities := supported_entities self;
                 supported_language := supported_language self;
                 self_entity_type := self_entity_type self;
                 csv_column := csv_column self;
                 case_sensitive := case_sensitive self;
                 keyword_processor := processor |} in
  (analyze_loop (self_entity_type self) matches [], self).

End Recognizer.

(** ** The multi-pattern scanner *)

Module Scanner.

(** [flashtext.KeywordProcessor], to which the recognizer delegates the
    matching, is a library outside the sources.  The scanner of this module
    follows sections 4.2 and 9 of the specification instead.  As in
    [__init__], a processor is created without patterns and the patterns are
    added afterwards. *)

#[local] Unset Elimination Schemes.

(** Modelled from the spec: the automaton of the missing keyword library, a
    trie shared by all patterns with a marker at each node where a pattern
    ends.  The marker holds the pattern, the identity a match reports. *)
Inductive trie :=
| Node (marker : option string) (children : list (ascii * trie)).

#[local] Set Elimination Schemes.

Definition empty : trie := Node None [].

Definition marker_of (t : trie) : option string :=
  match t with Node m _ => m end.

Definition children_of (t : trie) : list (ascii * trie) :=
  match t with Node _ cs => cs end.

Fixpoint assoc (c : ascii) (cs : list (ascii * trie)) : option trie :=
  match cs with
  | [] => None
  | (c', t) :: cs' => if Ascii.eqb c' c then Some t else assoc c cs'
  end.

Definition child (c : ascii) (t : trie) : option trie :=
  assoc c (children_of t).

(** Replace the child under [c] by [f] of it, of the empty trie when there
    is none. *)
Fixpoint update (c : ascii) (f : trie -> trie) (cs : list (ascii * trie))
  : list (ascii * trie) :=
  match cs with
  | [] => [(c, f empty)]
  | (c', t) :: cs' =>
      if Ascii.eqb c' c then (c', f t) :: cs' else (c', t) :: update c f cs'
  end.

(** Modelled from the spec: the missing insertion of a pattern, character by
    character, into the shared prefix structure; the node at the end of
    [key] is marked with [name]. *)
Fixpoint insert (key : list ascii) (name : string) : trie -> trie :=
  match key with
  | [] => fun t => Node (Some name) (children_of t)
  | c :: key' =>
      fun t => Node (marker_of t) (update c (insert key' name) (children_of t))
  end.

(** The node reached from [t] along [key]. *)
Fixpoint walk (key : list ascii) (t : trie) : option trie :=
  match key with
  | [] => Some t
  | c :: key' =>
      match child c t with
      | Some t' => walk key' t'
      | None => None
      end
  end.

Definition marker_at (key : list ascii) (t : trie) : option string :=
  match walk key t with
  | Some t' => marker_of t'
  | None => None
  end.

(** Modelled from the spec: the word characters of the missing scan,
    alphanumeric or underscore. *)
Definition is_word (c : ascii) : bool :=
  PyStr.isalnum c || Ascii.eqb c "_"%char.

(** Modelled from the spec: the word boundary of the missing scan, a
    neighbour that is absent (text edge) or not a word character. *)
Definition boundary (neighbour : option ascii) : bool :=
  match neighbour with
  | None => true
  | Some c => negb (is_word c)
  end.

(** Modelled from the spec: the case folding of the missing library,
    applied to every character of a pattern on insertion and to every
    character of the text on lookup, unless the scanner is case sensitive. *)
Definition fold_char (case_sensitive : bool) (c : ascii) : ascii :=
  if case_sensitive then c else PyStr.lower_char c.

Definition fold_key (case_sensitive : bool) (s : list ascii) : list ascii :=
  map (fold_char case_sensitive) s.

Record scanner := {
  sc_case_sensitive : bool;
  sc_root : trie
}.

(** Modelled from the spec: the missing constructor
    [KeywordProcessor(case_sensitive=...)], a scanner without patterns. *)
Definition build_empty (case_sensitive : bool) : scanner :=
  {| sc_case_sensitive := case_sensitive; sc_root := empty |}.

(** Modelled from the spec: the missing [add_keyword], which inserts the
    folded pattern. *)
Definition add_keyword (sc : scanner) (keyword : string) : scanner :=
  {| sc_case_sensitive := sc_case_sensitive sc;
     sc_root :=
       insert (fold_key (sc_case_sensitive sc) (list_ascii_of_string keyword))
              keyword (sc_root sc) |}.

(** Modelled from the spec: the missing [add_keywords_from_list], one
    insertion per pattern, in order. *)
Definition add_keywords (keywords : list string) (sc : scanner) : scanner :=
  fold_left add_keyword keywords sc.

Section Scan.
Variable case_sensitive : bool.

(** Modelled from the spec: the longest-match tracking of the missing scan.
    The longest match that starts where [t] was entered and ends at a word
    boundary, with its end offset; [pos] is the offset of [rest]. *)
Fixpoint longest_from (t : trie) (rest : list ascii) (pos : nat)
  : option (string * nat) :=
  let here :=
    if boundary (head rest)
    then option_map (fun name => (name, pos)) (marker_of t)
    else None in
  match rest with
  | [] => here
  | c :: rest' =>
      match child (fold_char case_sensitive c) t with
      | Some t' =>
          match longest_from t' rest' (S pos) with
          | Some m => Some m
          | None => here
          end
      | None => here
      end
  end.

(** Modelled from the spec: the pass of the missing scan over the text.  At
    every offset that follows a word boundary, the longest match starting
    there; [prev] is the character before [rest]. *)
Fixpoint scan_from (root : trie) (prev : option ascii) (rest : list ascii)
    (pos : nat) : list (string * nat * nat) :=
  match rest with
  | [] => []
  | c :: rest' =>
      (if boundary prev
       then match longest_from root rest pos with
            | Some (name, stop) => [(name, pos, stop)]
            | None => []
            end
       else [])
      ++ scan_from root (Some c) rest' (S pos)
  end.
End Scan.

(** Modelled from the spec: the missing
    [extract_keywords(text, span_info=True)], the matches of the whole text
    as (pattern, start, end) with offsets into the text as given. *)
Definition scan (sc : scanner) (text : string) : list (string * nat * nat) :=
  scan_from (sc_case_sensitive sc) (sc_root sc) None
    (list_ascii_of_string text) 0.

(** Modelled from the spec: the missing library as a whole; the scanner
    holds no per-call state, so a scan returns it as it was. *)
#[global] Instance library : KeywordLibrary := {
  KeywordProcessor := scanner;
  new_KeywordProcessor := build_empty;
  add_keywords_from_list := add_keywords;
  extract_keywords := fun text sc => (scan sc text, sc)
}.

End Scanner.

(** For examples: the components of a path, split at the slashes. *)
Fixpoint path_parts (cur : list ascii) (s : string) : list string :=
  match s with
  | EmptyString => [string_of_list_ascii (rev cur)]
  | String c s' =>
      if Ascii.eqb c "/"%char
      then string_of_list_ascii (rev cur) :: path_parts [] s'
      else path_parts (c :: cur) s'
  end.

(** For examples: a POSIX path as [pathlib] writes it.  Empty components
    and [.] components are dropped, a leading slash is kept (two leading
    slashes are kept as two), and the empty path is written as a dot. *)
Definition posix_text (p : string) : string :=
  let kept :=
    List.filter (fun part => negb (String.eqb part "" || String.eqb part "."))
      (path_parts [] p) in
  let body := String.concat "/" kept in
  if PyStr.startswith "///" p then "/" ++ body
  else if PyStr.startswith "//" p then "//" ++ body
  else if PyStr.startswith "/" p then "/" ++ body
  else if String.eqb body "" then "."
  else body.

(** A platform for closed examples: every path is a text file. *)
Definition text_platform : Platform := {|
  path_suffix := fun _ => "";
  path_text := posix_text;
  DictReader := fun _ => {| fieldnames := None; rows := [] |}
|}.


(** ** What the claims are stated with *)

(** The entries of [l] that do not occur earlier in [l], in the order of
    [l]: the list without duplicates, each string at its first occurrence. *)
Definition keep_first (l : list string) : list string :=
  flat_map
    (fun i =>
       match l !! i with
       | Some x => if bool_decide (x ∈ take i l) then [] else [x]
       | None => []
       end)
    (seq 0 (length l)).

(** The comparison key of the allowlist filter. *)
Definition comparison_key (case_sensitive : bool) (s : string) : string :=
  if case_sensitive then s else PyStr.lower s.

(** [p] has the comparison key of some allowlist entry. *)
Definition allowlisted (case_sensitive : bool) (allowlist : gset string)
    (p : string) : Prop :=
  set_Exists
    (fun a => comparison_key case_sensitive a = comparison_key case_sensitive p)
    allowlist.

#[global] Instance allowlisted_dec cs allowlist p :
  Decision (allowlisted cs allowlist p).
Proof. unfold allowlisted. apply _. Defined.

(** The value a computation returns and the accesses it makes, started on an
    empty trace. *)
Definition value_of {A} (m : IO A) (fs : filesystem) : outcome A :=
  fst (m fs []).

Definition accesses_of {A} (m : IO A) (fs : filesystem) : list fs_event :=
  snd (m fs []).

(** A computation whose value does not depend on the trace it starts from,
    and which only appends to it. *)
Definition oblivious {A} (m : IO A) : Prop :=
  forall fs tr, m fs tr = (value_of m fs, tr ++ accesses_of m fs).

(** [file_spec] loads, and yields [entries]. *)
Definition loads {platform : Platform} (fs : filesystem) (column : string)
    (file_spec : FileSpec) (entries : list string) : Prop :=
  value_of (_load_file column file_spec) fs = Return entries.

(** A file system with a pattern file and an allowlist file. *)
Definition fruit_fs (patterns allowlist : string) : filesystem :=
  fun path =>
    if String.eqb path "patterns.txt" then Some patterns
    else if String.eqb path "allowlist.txt" then Some allowlist
    else None.

Definition NL : string := String PyStr.LF EmptyString.

(** A string that [strip] leaves alone and that is not empty. *)
Definition trimmed (s : string) : Prop := PyStr.strip s = s /\ s <> "".

(** The characters of a string. *)
Definition chars (s : string) : list ascii := list_ascii_of_string s.

(** The character before offset [i] of [t], if there is one. *)
Definition char_before (t : list ascii) (i : nat) : option ascii :=
  match i with
  | 0 => None
  | S j => t !! j
  end.

(** A marked node is reached after [n] characters of [rest], at a word
    boundary. *)
Definition ends_at (cs : bool) (t : Scanner.trie) (rest : list ascii)
    (n : nat) (name : string) : Prop :=
  n <= length rest
  /\ Scanner.marker_at (Scanner.fold_key cs (take n rest)) t = Some name
  /\ Scanner.boundary (rest !! n) = true.

(** The matches that start at offset [i]. *)
Definition starts_at (i : nat) (m : string * nat * nat) : Prop := m.1.2 = i.

#[global] Instance starts_at_dec i m : Decision (starts_at i m).
Proof. unfold starts_at. apply _. Defined.

(** Pattern [p] occurs in [t] at offset [i], between word boundaries, up to
    the folding of the mode. *)
Definition valid_at (cs : bool) (t : list ascii) (i : nat) (p : string)
  : Prop :=
  Scanner.boundary (char_before t i) = true
  /\ i + length (chars p) <= length t
  /\ Scanner.fold_key cs (take (length (chars p)) (drop i t))
     = Scanner.fold_key cs (chars p)
  /\ Scanner.boundary (t !! (i + length (chars p))) = true.

(** The recognizer [__init__] returns when [patterns] survive the filter. *)
Definition recognizer_with {library : KeywordLibrary}
    (entity_type csv_column : string) (case_sensitive : bool)
    (patterns : list string) : PatternFileRecognizer :=
  {| supported_entities := [entity_type];
     supported_language := "en";
     self_entity_type := entity_type;
     csv_column := csv_column;
     case_sensitive := case_sensitive;
     keyword_processor :=
       add_keywords_from_list patterns (new_KeywordProcessor case_sensitive) |}.

(** The result [analyze] makes of a match. *)
Definition result_of (entity : string) (m : string * nat * nat)
  : RecognizerResult :=
  {| entity_type := entity; start := m.1.2; end_ := m.2; score := 1%Q |}.

(** Ascending start offset, ties broken by ascending end offset. *)
Definition span_le (r r' : RecognizerResult) : Prop :=
  start r < start r' \/ (start r = start r' /\ end_ r <= end_ r').

(** The path of a source. *)
Definition source_path (file_spec : FileSpec) : string :=
  match file_spec with
  | PathOnly path => path
  | PathColumn path _ => path
  end.

(** The accesses of a source that loads: one existence test, one open. *)
Definition read_once (file_spec : FileSpec) : list fs_event :=
  [PathExists (source_path file_spec); OpenRead (source_path file_spec)].

(** [x] occurs in [s]. *)
Definition occurs_in (x s : string) : Prop :=
  exists pre post : string, s = (pre ++ x ++ post)%string.

(** A stripped line that [_load_txt] keeps: not empty and no comment. *)
Definition kept_line (line : string) : bool :=
  PyStr.truthy line && negb (PyStr.startswith "#" line).

(** The entry a row gives under [column]: the stripped value, when there is
    a value and it is not blank. *)
Definition csv_entry (column : string) (row : csv_row) : option string :=
  match row column with
  | Some value =>
      if decide (PyStr.strip value = "") then None else Some (PyStr.strip value)
  | None => None
  end.

(** A file system with one file. *)
Definition single_file (name content : string) : filesystem :=
  fun path => if String.eqb path name then Some content else None.

(** For examples: the fields of a line of CSV without quoting. *)
Fixpoint split_on (sep : ascii) (cur : list ascii) (s : string) : list string :=
  match s with
  | EmptyString => [string_of_list_ascii (rev cur)]
  | String c s' =>
      if Ascii.eqb c sep
      then string_of_list_ascii (rev cur) :: split_on sep [] s'
      else split_on sep (c :: cur) s'
  end.

(** For examples: the value of a row under a field name, [None] where the
    row is short. *)
Fixpoint row_lookup (names values : list string) (column : string)
  : option string :=
  match names, values with
  | name :: names', value :: values' =>
      if String.eqb name column then Some value
      else row_lookup names' values' column
  | _, _ => None
  end.

(** For examples: a reader of CSV without quoting, the first line being the
    header and empty lines being skipped. *)
Definition plain_csv (content : string) : csv_reader :=
  match List.filter PyStr.truthy (split_on PyStr.LF [] content) with
  | [] => {| fieldnames := None; rows := [] |}
  | header :: lines =>
      let names := split_on ","%char [] header in
      {| fieldnames := Some names;
         rows := map (fun line => row_lookup names (split_on ","%char [] line))
                     lines |}
  end.

(** For examples: the part of a path from the last dot of its last
    component on. *)
Fixpoint suffix_from (cur : option (list ascii)) (s : string) : string :=
  match s with
  | EmptyString =>
      match cur with
      | Some l => string_of_list_ascii (rev l)
      | None => EmptyString
      end
  | String c s' =>
      if Ascii.eqb c "."%char then suffix_from (Some [c]) s'
      else if Ascii.eqb c "/"%char then suffix_from None s'
      else suffix_from (option_map (cons c) cur) s'
  end.

(** A platform for closed examples with CSV files. *)
Definition csv_platform : Platform := {|
  path_suffix := suffix_from None;
  path_text := posix_text;
  DictReader := plain_csv
|}.

(** A character that ends a line. *)
Definition is_break (c : ascii) : bool :=
  Ascii.eqb c PyStr.LF || Ascii.eqb c PyStr.CR.

(** A string without line ends. *)
Fixpoint one_line (s : string) : bool :=
  match s with
  | EmptyString => true
  | String c s' => negb (is_break c) && one_line s'
  end.

(** The line ends of a text file. *)
Inductive line_end :=
| EndLF
| EndCR
| EndCRLF.

Definition line_end_text (e : line_end) : string :=
  match e with
  | EndLF => String PyStr.LF EmptyString
  | EndCR => String PyStr.CR EmptyString
  | EndCRLF => String PyStr.CR (String PyStr.LF EmptyString)
  end.

(** The text of a file: [lines], each followed by the line end [e], and then
    [final], a line without line end (empty when the text ends with a line
    end). *)
Fixpoint file_text (e : line_end) (lines : list string) (final : string)
  : string :=
  match lines with
  | [] => final
  | line :: lines' =>
      (line ++ line_end_text e ++ file_text e lines' final)%string
  end.

(** A line as [readlines] gives it: no line end inside, and possibly the
    line feed at its end. *)
Definition read_line (line : string) : Prop :=
  exists body,
    one_line body = true
    /\ (line = body \/ line = (body ++ String PyStr.LF "")%string).

(** The text does not begin with a line feed. *)
Definition no_leading_feed (s : string) : Prop :=
  match s with
  | EmptyString => True
  | String c _ => Ascii.eqb c PyStr.LF = false
  end.

(** Closed instances of [valid_at] hold by evaluation. *)
Ltac valid_by_evaluation :=
  unfold valid_at; cbn; split_and!; (reflexivity || lia).

(** ** The effect monad *)

Section Oblivious.
Context {A B : Type}.

Lemma oblivious_ret (a : A) : oblivious (ret a).
Proof. intros fs tr. unfold ret, value_of, accesses_of; simpl. by rewrite app_nil_r. Qed.

Lemma oblivious_raise (e : exn) : oblivious (@raise A e).
Proof. intros fs tr. unfold raise, value_of, accesses_of; simpl. by rewrite app_nil_r. Qed.

Lemma oblivious_bind (m : IO A) (k : A -> IO B) :
  oblivious m -> (forall a, oblivious (k a)) -> oblivious (bind m k).
Proof.
  intros Hm Hk fs tr. unfold value_of, accesses_of, bind.
  rewrite (Hm fs tr), (Hm fs []). simpl.
  destruct (value_of m fs) as [a|e]; simpl.
  - rewrite (Hk a fs (tr ++ _)), (Hk a fs (accesses_of m fs)). simpl.
    by rewrite app_assoc.
  - done.
Qed.
End Oblivious.

Lemma oblivious_path_exists path : oblivious (path_exists path).
Proof. by intros fs tr. Qed.

Lemma oblivious_open_read path : oblivious (open_read path).
Proof.
  intros fs tr. unfold open_read, value_of, accesses_of.
  by destruct (fs path).
Qed.

Lemma bind_value {A B} (m : IO A) (k : A -> IO B) fs tr a :
  oblivious m -> value_of m fs = Return a ->
  bind m k fs tr = k a fs (tr ++ accesses_of m fs).
Proof. intros Hm Ha. unfold bind. by rewrite (Hm fs tr), Ha. Qed.

Section Loaders.
Context {platform : Platform}.

Lemma oblivious_load_txt path : oblivious (_load_txt path).
Proof.
  apply oblivious_bind; [apply oblivious_open_read|].
  intros content. apply oblivious_ret.
Qed.

Lemma oblivious_load_csv path column : oblivious (_load_csv path column).
Proof.
  apply oblivious_bind; [apply oblivious_open_read|].
  intros content. cbv beta zeta. destruct (fieldnames (DictReader content)).
  - destruct (bool_decide _); [apply oblivious_ret | apply oblivious_raise].
  - apply oblivious_raise.
Qed.

Lemma oblivious_load_file column file_spec :
  oblivious (_load_file column file_spec).
Proof.
  unfold _load_file. destruct file_spec as [p|p c].
  all: apply oblivious_bind; [apply oblivious_path_exists|].
  all: intros [|]; simpl; [|apply oblivious_raise].
  all: destruct (String.eqb _ _);
    [apply oblivious_load_csv | apply oblivious_load_txt].
Qed.

Lemma load_patterns_loop_value fs column files entries :
  Forall2 (loads fs column) files entries ->
  forall patterns tr,
    fst (load_patterns_loop column files patterns fs tr)
    = Return (patterns ++ concat entries).
Proof.
  induction 1 as [|f l files entries Hf _ IH]; intros patterns tr; simpl.
  - by rewrite app_nil_r.
  - rewrite (bind_value _ _ fs tr l); [|apply oblivious_load_file|done].
    rewrite IH. by rewrite app_assoc.
Qed.

Lemma load_allowlist_loop_value fs column files entries :
  Forall2 (loads fs column) files entries ->
  forall allowlist tr,
    fst (load_allowlist_loop column files allowlist fs tr)
    = Return (allowlist ∪ list_to_set (concat entries)).
Proof.
  induction 1 as [|f l files entries Hf _ IH]; intros allowlist tr; simpl.
  - f_equal. set_solver.
  - rewrite (bind_value _ _ fs tr l); [|apply oblivious_load_file|done].
    rewrite IH. f_equal. rewrite list_to_set_app_L. set_solver.
Qed.
End Loaders.

(** ** Deduplication *)

Section Dedup.
Implicit Types (l : list string) (d : pydict unit).

Lemma dict_keys_setitem d k :
  dict_keys (dict_setitem d k tt)
  = if bool_decide (k ∈ dict_keys d) then dict_keys d else dict_keys d ++ [k].
Proof.
  unfold dict_keys. induction d as [|[k' []] d IH].
  - rewrite bool_decide_eq_false_2; [done|]. apply not_elem_of_nil.
  - cbn [dict_setitem map fst].
    destruct (String.eqb_spec k' k) as [->|Hne]; cbn [map fst].
    + rewrite bool_decide_eq_true_2; [done|]. apply list_elem_of_here.
    + rewrite IH.
      destruct (decide (k ∈ map fst d)) as [Hin|Hin].
      * rewrite !bool_decide_eq_true_2; [done| |done].
        by apply list_elem_of_further.
      * rewrite !bool_decide_eq_false_2; [done| |done].
        intros [?|?]%elem_of_cons; congruence.
Qed.

Lemma dict_fromkeys_snoc l k :
  dict_fromkeys (l ++ [k]) = dict_setitem (dict_fromkeys l) k tt.
Proof. unfold dict_fromkeys. by rewrite fold_left_app. Qed.

Lemma flat_map_ext_seq {B} (f g : nat -> list B) (n : nat) :
  (forall i, i < n -> f i = g i) ->
  flat_map f (seq 0 n) = flat_map g (seq 0 n).
Proof.
  induction n as [|n IH]; intros Hfg; [done|].
  rewrite seq_S, !flat_map_app. simpl. rewrite !app_nil_r.
  f_equal; [apply IH; intros i Hi; apply Hfg; lia | apply Hfg; lia].
Qed.

Lemma keep_first_snoc l k :
  keep_first (l ++ [k])
  = keep_first l ++ (if bool_decide (k ∈ l) then [] else [k]).
Proof.
  unfold keep_first. rewrite length_app, Nat.add_1_r, seq_S, flat_map_app.
  simpl. rewrite app_nil_r. f_equal.
  - apply flat_map_ext_seq. intros i Hi.
    rewrite lookup_app_l by lia.
    by rewrite take_app_le by lia.
  - rewrite list_lookup_middle by done.
    by rewrite take_app_length.
Qed.

Lemma elem_of_keep_first l x : x ∈ keep_first l <-> x ∈ l.
Proof.
  induction l as [|k l IH] using rev_ind; [done|].
  rewrite keep_first_snoc, !elem_of_app, IH.
  case_bool_decide; set_solver.
Qed.

Lemma NoDup_keep_first l : NoDup (keep_first l).
Proof.
  induction l as [|k l IH] using rev_ind; [constructor|].
  rewrite keep_first_snoc. case_bool_decide as Hk.
  - by rewrite app_nil_r.
  - apply NoDup_app. split_and!; [done| |apply NoDup_singleton].
    intros x Hx Hx'. rewrite elem_of_keep_first in Hx.
    apply list_elem_of_singleton in Hx'. by subst.
Qed.

(** [list(dict.fromkeys(l))] keeps the first occurrence of each string. *)
Lemma dict_fromkeys_keep_first l :
  dict_keys (dict_fromkeys l) = keep_first l.
Proof.
  induction l as [|k l IH] using rev_ind; [done|].
  rewrite dict_fromkeys_snoc, dict_keys_setitem, keep_first_snoc, IH.
  destruct (decide (k ∈ l)) as [Hin|Hin].
  - rewrite !bool_decide_eq_true_2; [by rewrite app_nil_r|done|].
    by apply elem_of_keep_first.
  - rewrite !bool_decide_eq_false_2; [done|done|].
    by rewrite elem_of_keep_first.
Qed.
End Dedup.

(** ** The allowlist filter *)

Lemma filter_allowlisted_spec cs (allowlist : gset string) (patterns : list string) :
  filter_allowlisted cs allowlist patterns
  = filter (fun p => ~ allowlisted cs allowlist p) patterns.
Proof.
  unfold filter_allowlisted, allowlisted, comparison_key, set_Exists.
  destruct cs; apply list_filter_iff; intros p.
  - split.
    + intros Hp (a & Ha & ->). done.
    + intros Hp Hin. apply Hp. by exists p.
  - rewrite elem_of_map. split.
    + intros Hp (a & Ha & Heq). apply Hp. by exists a.
    + intros Hp (a & Heq & Ha). apply Hp. by exists a.
Qed.

(** ** Trimming *)

Section Strip.
Import PyStr.

Lemma rstrip_idem s : rstrip (rstrip s) = rstrip s.
Proof.
  induction s as [|c s IH]; [done|].
  cbn [rstrip]. destruct (rstrip s) as [|d r] eqn:Hr.
  - destruct (isspace c) eqn:Hc; [done|]. cbn [rstrip]. by rewrite Hc.
  - cbn [rstrip]. cbn [rstrip] in IH. by rewrite IH.
Qed.

Lemma lstrip_head s c r : lstrip s = String c r -> isspace c = false.
Proof.
  induction s as [|d s IH]; [done|]. cbn [lstrip].
  destruct (isspace d) eqn:Hd; [done|]. intros [= <- _]. done.
Qed.

Lemma rstrip_head c r :
  isspace c = false -> exists r', rstrip (String c r) = String c r'.
Proof.
  intros Hc. cbn [rstrip]. destruct (rstrip r); [|by eexists].
  rewrite Hc. by eexists.
Qed.

Lemma strip_idem s : strip (strip s) = strip s.
Proof.
  unfold strip. destruct (lstrip s) as [|c r] eqn:Hl; [done|].
  pose proof (lstrip_head _ _ _ Hl) as Hc.
  destruct (rstrip_head c r Hc) as [r' Hr']. rewrite Hr'.
  cbn [lstrip]. rewrite Hc, <- Hr'. apply rstrip_idem.
Qed.

Lemma truthy_nonempty s : truthy s = true <-> s <> "".
Proof. destruct s; simpl; split; congruence. Qed.
End Strip.

Section LoadedEntries.
Context {platform : Platform}.

Lemma load_txt_lines_trimmed lines patterns :
  Forall trimmed patterns -> Forall trimmed (load_txt_lines lines patterns).
Proof.
  revert patterns. induction lines as [|line lines IH]; intros patterns Hp; [done|].
  cbn [load_txt_lines]. destruct (_ && _) eqn:Hkeep; [|by apply IH].
  apply IH, Forall_app. split; [done|]. apply Forall_singleton.
  apply andb_true_iff in Hkeep as [Hne _].
  split; [apply strip_idem | by apply truthy_nonempty].
Qed.

Lemma load_csv_rows_trimmed column rs patterns :
  Forall trimmed patterns -> Forall trimmed (load_csv_rows column rs patterns).
Proof.
  revert patterns. induction rs as [|row rs IH]; intros patterns Hp; [done|].
  cbn [load_csv_rows]. destruct (row column) as [value|]; [|by apply IH].
  destruct (_ && _) eqn:Hkeep; [|by apply IH].
  apply IH, Forall_app. split; [done|]. apply Forall_singleton.
  apply andb_true_iff in Hkeep as [_ Hne].
  split; [apply strip_idem | by apply truthy_nonempty].
Qed.

(** What a source yields is trimmed and non-empty. *)
Lemma loads_trimmed fs column file_spec entries :
  loads fs column file_spec entries -> Forall trimmed entries.
Proof.
  unfold loads, value_of, _load_file.
  destruct file_spec as [p|p c]; unfold bind, path_exists.
  all: destruct (bool_decide _); cbn [negb fst]; [|done].
  all: destruct (String.eqb _ _).
  all: unfold _load_csv, _load_txt, bind, open_read; destruct (fs p); [|done].
  all: cbv beta iota zeta.
  all: try (destruct (fieldnames _); [destruct (bool_decide _)|]).
  all: cbn; try done.
  all: intros [= <-].
  all: first [by apply load_csv_rows_trimmed | by apply load_txt_lines_trimmed].
Qed.
End LoadedEntries.

(** ** The trie *)

Section Trie.
Import Scanner.

Lemma assoc_update c c' f cs :
  assoc c' (update c f cs)
  = if Ascii.eqb c c' then Some (f (default empty (assoc c cs)))
    else assoc c' cs.
Proof.
  induction cs as [|[c0 t] cs IH]; cbn [update assoc].
  - by destruct (Ascii.eqb c c').
  - destruct (Ascii.eqb_spec c0 c) as [->|Hne]; cbn [assoc].
    + by destruct (Ascii.eqb c c').
    + rewrite IH. destruct (Ascii.eqb_spec c0 c') as [->|Hne'].
      * destruct (Ascii.eqb_spec c c') as [->|_]; done.
      * done.
Qed.

Lemma marker_at_empty key : marker_at key empty = None.
Proof. by destruct key. Qed.

Lemma marker_at_cons c key t :
  marker_at (c :: key) t = marker_at key (default empty (child c t)).
Proof.
  unfold marker_at. cbn [walk]. destruct (child c t); [done|].
  symmetry. apply marker_at_empty.
Qed.

Lemma marker_at_insert key name key' t :
  marker_at key' (insert key name t)
  = if decide (key' = key) then Some name else marker_at key' t.
Proof.
  revert key' t. induction key as [|c key IH]; intros key' t.
  - destruct key' as [|c' key']; [done|].
    rewrite decide_False by done. by destruct t.
  - destruct key' as [|c' key'].
    + rewrite decide_False by done. by destruct t.
    + rewrite !marker_at_cons. cbn [insert]. unfold child at 1.
      cbn [children_of]. rewrite assoc_update.
      destruct (Ascii.eqb_spec c c') as [->|Hne]; cbn [from_option id].
      * rewrite IH. unfold child.
        destruct (decide (key' = key)) as [->|Hk].
        -- by rewrite decide_True.
        -- rewrite decide_False; [done|congruence].
      * rewrite decide_False; [done|congruence].
Qed.

Lemma add_keywords_snoc l k sc :
  add_keywords (l ++ [k]) sc = add_keyword (add_keywords l sc) k.
Proof. unfold add_keywords. by rewrite fold_left_app. Qed.

Lemma add_keywords_case l sc :
  sc_case_sensitive (add_keywords l sc) = sc_case_sensitive sc.
Proof.
  induction l as [|k l IH] using rev_ind; [done|].
  by rewrite add_keywords_snoc.
Qed.

(** A marker of the trie built from [l] holds a pattern of [l] under its
    key. *)
Lemma marker_at_built cs l key name :
  marker_at key (sc_root (add_keywords l (build_empty cs))) = Some name ->
  name ∈ l /\ fold_key cs (chars name) = key.
Proof.
  induction l as [|k l IH] using rev_ind.
  - by rewrite marker_at_empty.
  - rewrite add_keywords_snoc. cbn [add_keyword sc_root].
    rewrite marker_at_insert, add_keywords_case. cbn [build_empty sc_case_sensitive].
    case_decide as Hk.
    + intros [= <-]. split; [set_solver|done].
    + intros [Hin Hkey]%IH. split; [set_solver|done].
Qed.

(** Every pattern of [l] has its key marked. *)
Lemma built_marks cs l p :
  p ∈ l ->
  is_Some (marker_at (fold_key cs (chars p))
             (sc_root (add_keywords l (build_empty cs)))).
Proof.
  induction l as [|k l IH] using rev_ind; [by intros ?%elem_of_nil|].
  intros Hp. rewrite add_keywords_snoc. cbn [add_keyword sc_root].
  rewrite marker_at_insert, add_keywords_case. cbn [build_empty sc_case_sensitive].
  case_decide as Hk; [done|].
  apply IH. apply elem_of_app in Hp as [Hp|Hp]; [done|].
  apply list_elem_of_singleton in Hp. by subst.
Qed.
End Trie.

(** ** The scan *)

Section Scan.
Import Scanner.
Variable cs : bool.

Lemma ends_at_zero t rest name :
  ends_at cs t rest 0 name
  <-> marker_of t = Some name /\ boundary (head rest) = true.
Proof.
  unfold ends_at. rewrite take_0. cbn. destruct rest; cbn; intuition lia.
Qed.

Lemma ends_at_succ t c rest n name :
  ends_at cs t (c :: rest) (S n) name
  <-> exists t', child (fold_char cs c) t = Some t' /\ ends_at cs t' rest n name.
Proof.
  unfold ends_at. cbn [take length lookup list_lookup fold_key map].
  unfold marker_at. cbn [walk].
  destruct (child (fold_char cs c) t) as [t'|]; split.
  - intros (Hn & Hm & Hb). exists t'. repeat split; [lia|done|done].
  - intros (? & [= <-] & Hn & Hm & Hb). repeat split; [lia|done|done].
  - intros (_ & [=] & _).
  - intros (? & [=] & _).
Qed.

Lemma longest_from_complete t rest pos n name :
  ends_at cs t rest n name -> is_Some (longest_from cs t rest pos).
Proof.
  revert t pos n. induction rest as [|c rest IH]; intros t pos n Hn.
  - destruct n; [|destruct Hn as [Hn _]; cbn in Hn; lia].
    apply ends_at_zero in Hn as [Hm _]. cbn. rewrite Hm. by eexists.
  - destruct n as [|n].
    + apply ends_at_zero in Hn as [Hm Hb]. cbn [longest_from].
      rewrite Hb, Hm. cbn.
      destruct (child _ t); [|by eexists].
      destruct (longest_from _ _ _ _); by eexists.
    + apply ends_at_succ in Hn as (t' & Ht' & Hn). cbn [longest_from].
      rewrite Ht'. destruct (IH t' (S pos) n Hn) as [m ->]. by eexists.
Qed.

Lemma longest_from_here t (rest : list ascii) (pos : nat) name e :
  (if boundary (head rest)
   then option_map (fun name => (name, pos)) (marker_of t)
   else None) = Some (name, e) ->
  e = pos /\ ends_at cs t rest 0 name.
Proof.
  rewrite ends_at_zero. destruct (boundary (head rest)); [|done].
  destruct (marker_of t); [|done]. by intros [= -> ->].
Qed.

Lemma longest_from_sound t rest pos name e :
  longest_from cs t rest pos = Some (name, e) ->
  exists n, e = pos + n /\ ends_at cs t rest n name
            /\ forall m name', ends_at cs t rest m name' -> m <= n.
Proof.
  revert t pos. induction rest as [|c rest IH]; intros t pos.
  - cbn [longest_from]. intros [-> H0]%longest_from_here.
    exists 0. split_and!; [lia|done|].
    intros m name' (Hm & _). cbn in Hm. lia.
  - cbn [longest_from].
    destruct (child (fold_char cs c) t) as [t'|] eqn:Ht'.
    + destruct (longest_from cs t' rest (S pos)) as [[name1 e1]|] eqn:Hl.
      * intros [= -> ->]. destruct (IH _ _ Hl) as (n & -> & Hn & Hmax).
        exists (S n). split_and!; [lia| |].
        -- apply ends_at_succ. by exists t'.
        -- intros [|m] name'; [lia|].
           intros (t1 & Ht1 & Hm)%ends_at_succ.
           rewrite Ht' in Ht1. injection Ht1 as <-.
           apply Hmax in Hm. lia.
      * intros [-> H0]%longest_from_here.
        exists 0. split_and!; [lia|done|].
        intros [|m] name'; [lia|].
        intros (t1 & Ht1 & Hm)%ends_at_succ.
        rewrite Ht' in Ht1. injection Ht1 as <-.
        apply (longest_from_complete _ _ (S pos)) in Hm as [? Hm].
        congruence.
    + intros [-> H0]%longest_from_here.
      exists 0. split_and!; [lia|done|].
      intros [|m] name'; [lia|].
      intros (t1 & Ht1 & _)%ends_at_succ. congruence.
Qed.

Lemma char_before_app (pre rest : list ascii) :
  char_before (pre ++ rest) (length pre) = last pre.
Proof.
  destruct pre as [|a pre] using rev_ind; [done|].
  rewrite length_app, Nat.add_1_r. cbn [char_before].
  rewrite last_snoc, <- app_assoc. by apply list_lookup_middle.
Qed.

Lemma scan_from_at root pre rest i :
  filter (starts_at i) (scan_from cs root (last pre) rest (length pre))
  = if decide (length pre <= i < length (pre ++ rest)) then
      if boundary (char_before (pre ++ rest) i) then
        match longest_from cs root (drop i (pre ++ rest)) i with
        | Some (name, stop) => [(name, i, stop)]
        | None => []
        end
      else []
    else [].
Proof.
  revert pre. induction rest as [|c rest IH]; intros pre.
  - rewrite app_nil_r. cbn. case_decide; [lia|done].
  - cbn [scan_from]. rewrite filter_app.
    specialize (IH (pre ++ [c])).
    rewrite last_snoc, length_app, Nat.add_1_r, <- app_assoc in IH.
    cbn [app] in IH. rewrite IH. clear IH.
    rewrite !length_app. cbn [length].
    destruct (decide (i = length pre)) as [->|Hi].
    + rewrite char_before_app, drop_app_length.
      rewrite decide_False by lia. rewrite decide_True by lia.
      rewrite app_nil_r. destruct (boundary (last pre)); [|done].
      destruct (longest_from _ _ _ _) as [[name stop]|]; [|done].
      rewrite filter_cons_True by done. done.
    + assert (filter (starts_at i)
                (if boundary (last pre)
                 then match longest_from cs root (c :: rest) (length pre) with
                      | Some (name, stop) => [(name, length pre, stop)]
                      | None => []
                      end
                 else []) = []) as ->.
      { destruct (boundary (last pre)); [|done].
        destruct (longest_from _ _ _ _) as [[name stop]|]; [|done].
        rewrite filter_cons_False; [done|]. unfold starts_at. cbn. lia. }
      cbn [app]. repeat case_decide; try lia; done.
Qed.

Lemma scan_from_lower_bound root prev rest pos :
  Forall (fun m => pos <= m.1.2) (scan_from cs root prev rest pos).
Proof.
  revert prev pos. induction rest as [|c rest IH]; intros prev pos; [constructor|].
  cbn [scan_from]. apply Forall_app. split.
  - destruct (boundary prev); [|constructor].
    destruct (longest_from _ _ _ _) as [[name stop]|]; [|constructor].
    apply Forall_singleton. cbn. lia.
  - eapply Forall_impl; [apply IH|]. cbn. intros m Hm. lia.
Qed.

Lemma scan_from_sorted root prev rest pos :
  StronglySorted (fun m m' => m.1.2 < m'.1.2) (scan_from cs root prev rest pos).
Proof.
  revert prev pos. induction rest as [|c rest IH]; intros prev pos; [constructor|].
  cbn [scan_from].
  destruct (boundary prev); [|apply IH].
  destruct (longest_from _ _ _ _) as [[name stop]|]; [|apply IH].
  cbn [app]. constructor; [apply IH|].
  eapply Forall_impl; [apply scan_from_lower_bound|]. cbn. intros m Hm. lia.
Qed.
End Scan.

(** ** Recognizers and their results *)

Section Analyze.
Context {library : KeywordLibrary}.

Lemma analyze_loop_map entity matches results :
  analyze_loop entity matches results
  = results ++ map (result_of entity) matches.
Proof.
  revert results. induction matches as [|[[name s] e] matches IH]; intros results.
  - by rewrite app_nil_r.
  - cbn [analyze_loop map]. rewrite IH, <- app_assoc. done.
Qed.

Lemma analyze_results {N : Type} text entities (nlp : N) self :
  (analyze text entities nlp self).1
  = map (result_of (self_entity_type self))
        (extract_keywords text (keyword_processor self)).1.
Proof.
  unfold analyze. destruct (extract_keywords _ _) as [matches kp'].
  cbn. by rewrite analyze_loop_map.
Qed.
End Analyze.

Section Built.
Import Scanner.

Lemma scan_at sc text i :
  filter (starts_at i) (scan sc text)
  = if decide (i < length (chars text)) then
      if boundary (char_before (chars text) i) then
        match longest_from (sc_case_sensitive sc) (sc_root sc)
                (drop i (chars text)) i with
        | Some (name, stop) => [(name, i, stop)]
        | None => []
        end
      else []
    else [].
Proof.
  unfold scan. pose proof (scan_from_at (sc_case_sensitive sc) (sc_root sc)
                             [] (chars text) i) as Hat.
  cbn [last length app] in Hat. unfold chars in *. rewrite Hat.
  repeat case_decide; try lia; done.
Qed.

Lemma elem_of_scan sc text name s e :
  (name, s, e) ∈ scan sc text
  <-> s < length (chars text)
      /\ boundary (char_before (chars text) s) = true
      /\ longest_from (sc_case_sensitive sc) (sc_root sc)
           (drop s (chars text)) s = Some (name, e).
Proof.
  assert ((name, s, e) ∈ scan sc text
          <-> (name, s, e) ∈ filter (starts_at s) (scan sc text)) as ->.
  { rewrite list_elem_of_filter. unfold starts_at. cbn. tauto. }
  rewrite scan_at. case_decide as Hs.
  - destruct (boundary _).
    + destruct (longest_from _ _ _ _) as [[name' e']|].
      * rewrite list_elem_of_singleton. split.
        -- intros [= -> ->]. done.
        -- intros (_ & _ & [= -> ->]). done.
      * split; [by intros ?%elem_of_nil | by intros (_ & _ & ?)].
    + split; [by intros ?%elem_of_nil | by intros (_ & ? & _)].
  - split; [by intros ?%elem_of_nil | by intros (? & _)].
Qed.

Lemma fold_key_length cs s : length (fold_key cs s) = length s.
Proof. apply length_map. Qed.

Lemma ends_at_valid cs l t i n name :
  i <= length t ->
  boundary (char_before t i) = true ->
  ends_at cs (sc_root (add_keywords l (build_empty cs))) (drop i t) n name ->
  name ∈ l /\ n = length (chars name) /\ valid_at cs t i name.
Proof.
  intros Hi Hb (Hn & Hm & Ha). rewrite length_drop in Hn.
  apply marker_at_built in Hm as [Hin Hkey].
  assert (n = length (chars name)) as ->.
  { apply (f_equal length) in Hkey. rewrite !fold_key_length in Hkey.
    rewrite length_take, length_drop in Hkey. lia. }
  rewrite lookup_drop in Ha.
  split_and!; [done|done|]. unfold valid_at. split_and!; [done|lia|done|done].
Qed.

Lemma valid_ends_at cs l t i p :
  p ∈ l -> valid_at cs t i p ->
  exists name,
    ends_at cs (sc_root (add_keywords l (build_empty cs))) (drop i t)
      (length (chars p)) name.
Proof.
  intros Hp (Hb & Hlen & Hkey & Ha).
  destruct (built_marks cs l p Hp) as [name Hname]. exists name.
  unfold ends_at. rewrite Hkey, length_drop, lookup_drop.
  split_and!; [lia|done|done].
Qed.

(** What a built scanner reports: a pattern between word boundaries, the
    longest one at its start. *)
Lemma scan_built_sound cs l text name s e :
  (name, s, e) ∈ scan (add_keywords l (build_empty cs)) text ->
  name ∈ l /\ e = s + length (chars name) /\ valid_at cs (chars text) s name
  /\ forall r, r ∈ l -> valid_at cs (chars text) s r ->
               length (chars r) <= length (chars name).
Proof.
  rewrite elem_of_scan, add_keywords_case. cbn [build_empty sc_case_sensitive].
  intros (Hs & Hb & Hl).
  apply longest_from_sound in Hl as (n & -> & Hn & Hmax).
  apply ends_at_valid in Hn as (Hin & -> & Hv); [|lia|done].
  split_and!; [done..|].
  intros r Hr Hvr. destruct (valid_ends_at cs l _ s r Hr Hvr) as [name' Hr'].
  by apply Hmax in Hr'.
Qed.

Lemma scan_built_complete cs l text i p :
  p ∈ l -> valid_at cs (chars text) i p -> i < length (chars text) ->
  exists name e,
    filter (starts_at i) (scan (add_keywords l (build_empty cs)) text)
    = [(name, i, e)].
Proof.
  intros Hp Hv Hi. rewrite scan_at, add_keywords_case.
  cbn [build_empty sc_case_sensitive].
  rewrite decide_True by done. destruct Hv as (Hb & Hv). rewrite Hb.
  destruct (valid_ends_at cs l _ i p Hp (conj Hb Hv)) as [name Hn].
  apply (longest_from_complete _ _ _ i) in Hn as [[name' e] ->].
  by exists name', e.
Qed.
End Built.

(** ** The constructor *)

Section Init.
Context {platform : Platform} {library : KeywordLibrary}.

Lemma load_patterns_value fs column files entries tr :
  Forall2 (loads fs column) files entries ->
  fst (_load_patterns column files fs tr)
  = Return (keep_first (concat entries)).
Proof.
  intros Hload. unfold _load_patterns, bind.
  pose proof (load_patterns_loop_value fs column files entries Hload [] tr) as Hv.
  destruct (load_patterns_loop _ _ _ _ _) as [[patterns|e] tr']; [|done].
  cbn in Hv. injection Hv as ->. cbn. by rewrite dict_fromkeys_keep_first.
Qed.

Lemma load_allowlist_value fs column files entries tr :
  Forall2 (loads fs column) files entries ->
  fst (_load_allowlist column files fs tr)
  = Return (list_to_set (concat entries)).
Proof.
  intros Hload. unfold _load_allowlist.
  rewrite (load_allowlist_loop_value fs column files entries Hload).
  f_equal. apply (left_id_L ∅ (∪)).
Qed.

Lemma init_value files entity allowlist_files column cs fs tr
    allow_entries pattern_entries :
  files <> [] ->
  Forall2 (loads fs column) (default [] allowlist_files) allow_entries ->
  Forall2 (loads fs column) files pattern_entries ->
  fst (__init__ files entity allowlist_files column cs fs tr)
  = Return (recognizer_with entity column cs
              (filter_allowlisted cs (list_to_set (concat allow_entries))
                 (keep_first (concat pattern_entries)))).
Proof.
  intros Hne Hallow Hpat. unfold __init__.
  destruct files as [|f files]; [done|]. unfold bind.
  pose proof (load_allowlist_value fs column _ _ tr Hallow) as Ha.
  destruct (_load_allowlist _ _ _ _) as [[allowlist|e] tr1]; [|done].
  cbn in Ha. injection Ha as ->.
  pose proof (load_patterns_value fs column _ _ tr1 Hpat) as Hp.
  destruct (_load_patterns _ _ _ _) as [[patterns|e] tr2]; [|done].
  cbn in Hp. injection Hp as ->. done.
Qed.

Lemma filter_allowlisted_all cs allowlist patterns :
  Forall (allowlisted cs allowlist) patterns ->
  filter_allowlisted cs allowlist patterns = [].
Proof.
  intros Hall. rewrite filter_allowlisted_spec.
  induction Hall as [|p patterns Hp _ IH]; [done|].
  rewrite filter_cons_False; [done|]. by intros Hn.
Qed.
End Init.

(** C9: with an empty list of pattern sources the constructor raises
    [ValueError] (the configuration error), whatever the other arguments
    and the file system are, and the trace of file-system accesses is the
    one it started with: no path is tested or opened. *)
Theorem init_empty_sources_raises_before_any_access :
  forall (platform : Platform) (library : KeywordLibrary) entity
    allowlist_files column cs (fs : filesystem) (tr : list fs_event),
    __init__ [] entity allowlist_files column cs fs tr
    = (Raise (ValueError "patterns_files must be non-empty"), tr).
Proof. reflexivity. Qed.

(** C10: the result of [analyze] does not depend on [entities]: two calls
    on the same recognizer, text and artifacts return the same results (and
    the same recognizer) whatever lists of requested types they get. *)
Theorem analyze_ignores_entities :
  forall (library : KeywordLibrary) (N : Type) text
    (entities1 entities2 : list string) (nlp_artifacts : N)
    (self : PatternFileRecognizer),
    analyze text entities1 nlp_artifacts self
    = analyze text entities2 nlp_artifacts self.
Proof. reflexivity. Qed.

(** C7: when every source loads, [_load_patterns] returns the entries of
    the sources, concatenated in the order of the sources, with each string
    kept at its first occurrence only; the entries are trimmed; the result
    has no duplicates and the same strings as the concatenation.  Strings
    are compared as they are: the case-sensitivity flag is no argument of
    the loader, and a file with the lines Apple and apple gives a
    recognizer built from both, in either mode. *)
Theorem load_patterns_keeps_first_occurrences :
  (forall (platform : Platform) column files fs tr entries,
      Forall2 (loads fs column) files entries ->
      fst (_load_patterns column files fs tr)
      = Return (keep_first (concat entries))
      /\ Forall trimmed (concat entries))
  /\ (forall l : list string,
        NoDup (keep_first l) /\ forall x, x ∈ keep_first l <-> x ∈ l)
  /\ (forall (library : KeywordLibrary) cs,
        value_of (__init__ (platform := text_platform)
                    [PathOnly "patterns.txt"] "FRUIT" None "name" cs)
                 (fruit_fs ("Apple" ++ NL ++ "apple" ++ NL) "")
        = Return (recognizer_with "FRUIT" "name" cs ["Apple"; "apple"])).
Proof.
  split_and!.
  - intros platform column files fs tr entries Hload. split.
    + by apply load_patterns_value.
    + apply Forall_concat. eapply Forall_impl.
      * eapply Forall2_Forall_r; [apply Hload|].
        apply Forall_true. intros f l Hl. exact (loads_trimmed _ _ _ _ Hl).
      * done.
  - intros l. split; [apply NoDup_keep_first | intros x; apply elem_of_keep_first].
  - intros library [|]; vm_compute; reflexivity.
Qed.

Lemma load_patterns_keeps_first_occurrences_witness :
  Forall2 (loads (platform := text_platform)
             (fruit_fs ("Apple" ++ NL ++ "Apple" ++ NL) ("Pear" ++ NL)) "name")
    [PathOnly "patterns.txt"; PathOnly "allowlist.txt"]
    [["Apple"; "Apple"]; ["Pear"]]
  /\ fst (_load_patterns (platform := text_platform) "name"
            [PathOnly "patterns.txt"; PathOnly "allowlist.txt"]
            (fruit_fs ("Apple" ++ NL ++ "Apple" ++ NL) ("Pear" ++ NL)) [])
     = Return ["Apple"; "Pear"].
Proof.
  assert (Forall2 (loads (platform := text_platform)
             (fruit_fs ("Apple" ++ NL ++ "Apple" ++ NL) ("Pear" ++ NL)) "name")
            [PathOnly "patterns.txt"; PathOnly "allowlist.txt"]
            [["Apple"; "Apple"]; ["Pear"]]) as Hload.
  { repeat constructor. }
  split; [exact Hload|].
  exact (proj1 (proj1 load_patterns_keeps_first_occurrences
                  text_platform "name" _ _ [] _ Hload)).
Defined.

(** C8: the allowlist filter of [__init__] keeps exactly the patterns whose
    comparison key (the string itself when case sensitive, its lower-case
    form otherwise) is the comparison key of no allowlist entry, in the
    order they had.  With the lines Apple, Apple, Orange as patterns and
    apple as allowlist, in the default case-insensitive mode, the
    recognizer is built from Orange alone. *)
Theorem allowlist_filter_by_comparison_key :
  (forall cs (allowlist : gset string) (patterns : list string),
      filter_allowlisted cs allowlist patterns
      = filter (fun p => ~ allowlisted cs allowlist p) patterns
      /\ filter_allowlisted cs allowlist patterns `sublist_of` patterns)
  /\ (forall library : KeywordLibrary,
        value_of (__init__ (platform := text_platform)
                    [PathOnly "patterns.txt"] "FRUIT"
                    (Some [PathOnly "allowlist.txt"]) "name" false)
                 (fruit_fs ("Apple" ++ NL ++ "Apple" ++ NL ++ "Orange" ++ NL)
                           ("apple" ++ NL))
        = Return (recognizer_with "FRUIT" "name" false ["Orange"])).
Proof.
  split.
  - intros cs allowlist patterns. rewrite filter_allowlisted_spec.
    split; [done | apply sublist_filter].
  - intros library. vm_compute. reflexivity.
Qed.

(** C4, as the code has it: the constructor checks the list of sources
    only.  When that list is not empty and every pattern and allowlist
    source loads, construction succeeds even if the allowlist removes every
    loaded pattern: it returns the recognizer whose processor got no
    keyword. *)
Theorem init_accepts_empty_pattern_set :
  forall (platform : Platform) (library : KeywordLibrary) files entity
    allowlist_files column cs fs tr allow_entries pattern_entries,
    files <> [] ->
    Forall2 (loads fs column) (default [] allowlist_files) allow_entries ->
    Forall2 (loads fs column) files pattern_entries ->
    Forall (allowlisted cs (list_to_set (concat allow_entries)))
           (concat pattern_entries) ->
    fst (__init__ files entity allowlist_files column cs fs tr)
    = Return (recognizer_with entity column cs []).
Proof.
  intros platform library files entity allowlist_files column cs fs tr
    allow_entries pattern_entries Hne Hallow Hpat Hall.
  rewrite (init_value _ _ _ _ _ _ _ _ _ Hne Hallow Hpat).
  rewrite filter_allowlisted_all; [done|].
  rewrite Forall_forall in Hall |- *. intros p Hp.
  rewrite elem_of_keep_first in Hp. by apply Hall.
Qed.

Lemma init_accepts_empty_pattern_set_witness :
  fst (__init__ (platform := text_platform) (library := Scanner.library)
         [PathOnly "patterns.txt"] "FRUIT" (Some [PathOnly "allowlist.txt"])
         "name" false (fruit_fs ("Apple" ++ NL) ("apple" ++ NL)) [])
  = Return (recognizer_with "FRUIT" "name" false []).
Proof.
  apply (init_accepts_empty_pattern_set text_platform Scanner.library
           [PathOnly "patterns.txt"] "FRUIT" (Some [PathOnly "allowlist.txt"])
           "name" false (fruit_fs ("Apple" ++ NL) ("apple" ++ NL)) []
           [["apple"]] [["Apple"]]).
  - discriminate.
  - repeat constructor.
  - repeat constructor.
  - repeat constructor. exists "apple". split; [|reflexivity].
    vm_compute. reflexivity.
Defined.

(** C4, refuted as stated: the only pattern, Apple, is removed by the
    allowlist entry apple, the final pattern set is empty, and the
    constructor returns a recognizer instead of raising. *)
Lemma init_all_allowlisted_builds :
  filter_allowlisted false {["apple"]} (keep_first ["Apple"]) = []
  /\ value_of (__init__ (platform := text_platform) (library := Scanner.library)
                 [PathOnly "patterns.txt"] "FRUIT"
                 (Some [PathOnly "allowlist.txt"]) "name" false)
              (fruit_fs ("Apple" ++ NL) ("apple" ++ NL))
     = Return (recognizer_with "FRUIT" "name" false []).
Proof. split; vm_compute; reflexivity. Qed.

(** ** Results of the scanner-backed recognizer *)

Section ScannerResults.
Import Scanner.

Lemma filter_map {A B} (P : B -> Prop) `{!forall x, Decision (P x)}
    (f : A -> B) (l : list A) :
  filter P (map f l) = map f (filter (fun x => P (f x)) l).
Proof.
  induction l as [|x l IH]; [done|]. cbn [map].
  destruct (decide (P (f x))) as [Hx|Hx].
  - rewrite !filter_cons_True by done. cbn [map]. by rewrite IH.
  - by rewrite !filter_cons_False.
Qed.

Lemma StronglySorted_map {A B} (R : A -> A -> Prop) (R' : B -> B -> Prop)
    (f : A -> B) l :
  (forall x y, R x y -> R' (f x) (f y)) ->
  StronglySorted R l -> StronglySorted R' (map f l).
Proof.
  intros Hf. induction 1 as [|x l Hs IH Hall]; cbn [map]; constructor; [done|].
  apply Forall_map. eapply Forall_impl; [exact Hall|]. cbn. auto.
Qed.

Lemma analyze_scan {N : Type} text entities (nlp : N)
    (self : PatternFileRecognizer) :
  (analyze text entities nlp self).1
  = map (result_of (self_entity_type self))
        (scan (keyword_processor self) text).
Proof. by rewrite analyze_results. Qed.

Lemma elem_of_analyze {N : Type} text entities (nlp : N)
    (self : PatternFileRecognizer) r :
  r ∈ (analyze text entities nlp self).1
  <-> exists name,
        r = result_of (self_entity_type self) (name, start r, end_ r)
        /\ (name, start r, end_ r) ∈ scan (keyword_processor self) text.
Proof.
  rewrite analyze_scan, list_elem_of_In, in_map_iff. split.
  - intros ([[name s] e] & <- & Hin). exists name. cbn.
    split; [done | by apply list_elem_of_In].
  - intros (name & Hr & Hin). exists (name, start r, end_ r).
    split; [done | by apply list_elem_of_In].
Qed.

Lemma analyze_unchanged {N : Type} text entities (nlp : N)
    (self : PatternFileRecognizer) :
  (analyze text entities nlp self).2 = self.
Proof. by destruct self. Qed.

(** The span of a reported match lies in the text, between word
    boundaries, for any trie. *)
Lemma scan_span sc text name s e :
  (name, s, e) ∈ scan sc text ->
  s <= e <= length (chars text)
  /\ boundary (char_before (chars text) s) = true
  /\ boundary (chars text !! e) = true.
Proof.
  intros (Hs & Hb & Hl)%elem_of_scan.
  apply longest_from_sound in Hl as (n & -> & (Hn & _ & Ha) & _).
  rewrite length_drop in Hn. rewrite lookup_drop in Ha.
  split_and!; [lia|lia|done|done].
Qed.

Lemma chars_lower s : chars (PyStr.lower s) = map PyStr.lower_char (chars s).
Proof.
  unfold chars. induction s as [|c s IH]; [done|].
  cbn [PyStr.lower list_ascii_of_string map]. by rewrite IH.
Qed.

Lemma fold_key_sensitive s : fold_key true s = s.
Proof. unfold fold_key. cbn. apply map_id. Qed.
End ScannerResults.

(** C1: a result of [analyze] has its span inside the text, and the
    character before its start and the character at its end are each absent
    or not a word character (alphanumeric or underscore), whatever the
    recognizer holds.  With the pattern Cat, Category has no match and (Cat)
    has the one match from 1 to 4. *)
Theorem analyze_word_boundaries :
  (forall (N : Type) (self : PatternFileRecognizer) text entities (nlp : N) r,
      r ∈ (analyze text entities nlp self).1 ->
      start r <= end_ r <= length (chars text)
      /\ Scanner.boundary (char_before (chars text) (start r)) = true
      /\ Scanner.boundary (chars text !! end_ r) = true)
  /\ (forall cs entity column entities,
        (analyze "Category" entities tt
           (recognizer_with entity column cs ["Cat"])).1 = [])
  /\ (forall cs entity column entities,
        (analyze "(Cat)" entities tt
           (recognizer_with entity column cs ["Cat"])).1
        = [{| entity_type := entity; start := 1; end_ := 4; score := 1 |}]).
Proof.
  split_and!.
  - intros N self text entities nlp r (name & _ & Hin)%elem_of_analyze.
    by apply scan_span in Hin.
  - by intros [|].
  - by intros [|].
Qed.

Lemma analyze_word_boundaries_witness :
  {| entity_type := "PET"; start := 1; end_ := 4; score := 1 |}
    ∈ (analyze "(Cat)" [] tt (recognizer_with "PET" "name" false ["Cat"])).1
  /\ 1 <= 4 <= length (chars "(Cat)")
  /\ Scanner.boundary (char_before (chars "(Cat)") 1) = true
  /\ Scanner.boundary (chars "(Cat)" !! 4) = true.
Proof.
  assert ({| entity_type := "PET"; start := 1; end_ := 4; score := 1 |}
            ∈ (analyze "(Cat)" [] tt
                 (recognizer_with "PET" "name" false ["Cat"])).1) as Hin.
  { apply list_elem_of_here. }
  split; [exact Hin|].
  exact (proj1 analyze_word_boundaries unit _ "(Cat)" [] tt _ Hin).
Defined.

Section BuiltResults.
Import Scanner.
Context {N : Type}.
Variables (entity column : string) (cs : bool) (patterns : list string).
Variables (text : string) (entities : list string) (nlp : N).

(** A result is a pattern between word boundaries, the longest one at its
    start. *)
Lemma analyze_built_sound r :
  r ∈ (analyze text entities nlp
         (recognizer_with entity column cs patterns)).1 ->
  exists p,
    p ∈ patterns /\ end_ r = start r + length (chars p)
    /\ valid_at cs (chars text) (start r) p
    /\ forall q, q ∈ patterns -> valid_at cs (chars text) (start r) q ->
                 length (chars q) <= length (chars p).
Proof.
  intros (name & _ & Hin)%elem_of_analyze.
  apply scan_built_sound in Hin as (Hp & He & Hv & Hmax).
  by exists name.
Qed.

(** Where a pattern is valid, exactly one result starts, and it spans the
    longest valid pattern. *)
Lemma analyze_built_at i p :
  p ∈ patterns -> valid_at cs (chars text) i p -> i < length (chars text) ->
  exists longest,
    longest ∈ patterns
    /\ valid_at cs (chars text) i longest
    /\ (forall q, q ∈ patterns -> valid_at cs (chars text) i q ->
                  length (chars q) <= length (chars longest))
    /\ filter (fun r => start r = i)
         (analyze text entities nlp
            (recognizer_with entity column cs patterns)).1
       = [{| entity_type := entity; start := i;
             end_ := i + length (chars longest); score := 1 |}].
Proof.
  intros Hp Hv Hi.
  destruct (scan_built_complete cs patterns text i p Hp Hv Hi)
    as (name & e & Hat).
  assert ((name, i, e) ∈ scan (add_keywords patterns (build_empty cs)) text)
    as Hin.
  { eapply list_elem_of_filter. rewrite Hat. apply list_elem_of_here. }
  apply scan_built_sound in Hin as (Hname & -> & Hvn & Hmax).
  exists name. split_and!; [done..|].
  rewrite analyze_scan, filter_map.
  cbn [recognizer_with keyword_processor self_entity_type].
  rewrite (list_filter_iff _ (starts_at i)) by done.
  change (add_keywords_from_list patterns (new_KeywordProcessor cs))
    with (add_keywords patterns (build_empty cs)).
  by rewrite Hat.
Qed.
End BuiltResults.

(** C2: when two patterns of different length are both valid (they occur
    between word boundaries) at one offset, so that the key of the shorter is
    a proper prefix of the key of the longer, exactly one result starts at
    that offset: it spans the longest pattern valid there, which is at least
    as long as the longer of the two, and no result spans the shorter one.
    With the patterns Customer and CustomerA, the text CustomerA has the one
    match from 0 to 9. *)
Theorem analyze_longest_match :
  (forall (N : Type) entity column cs patterns text entities (nlp : N) i p q,
      p ∈ patterns -> q ∈ patterns ->
      length (chars p) < length (chars q) ->
      valid_at cs (chars text) i p -> valid_at cs (chars text) i q ->
      let results :=
        (analyze text entities nlp
           (recognizer_with entity column cs patterns)).1 in
      (exists longest,
          longest ∈ patterns
          /\ valid_at cs (chars text) i longest
          /\ (forall r, r ∈ patterns -> valid_at cs (chars text) i r ->
                        length (chars r) <= length (chars longest))
          /\ filter (fun r => start r = i) results
             = [{| entity_type := entity; start := i;
                   end_ := i + length (chars longest); score := 1 |}])
      /\ forall r, r ∈ results ->
                   ~ (start r = i /\ end_ r = i + length (chars p)))
  /\ (forall cs entity column entities,
        (analyze "CustomerA" entities tt
           (recognizer_with entity column cs ["Customer"; "CustomerA"])).1
        = [{| entity_type := entity; start := 0; end_ := 9; score := 1 |}]).
Proof.
  split.
  - intros N entity column cs patterns text entities nlp i p q Hp Hq Hlt Hvp Hvq
      results.
    assert (i < length (chars text)) as Hi.
    { destruct Hvq as (_ & Hlen & _). lia. }
    destruct (analyze_built_at entity column cs patterns text entities nlp
                i q Hq Hvq Hi) as (longest & Hl & Hvl & Hmax & Hat).
    split; [by exists longest|].
    intros r Hr [Hs He].
    assert (r ∈ filter (fun r => start r = i) results) as Hin.
    { by apply list_elem_of_filter. }
    unfold results in Hin. rewrite Hat in Hin.
    apply list_elem_of_singleton in Hin. subst r. cbn in He.
    specialize (Hmax q Hq Hvq). lia.
  - by intros [|].
Qed.

Lemma analyze_longest_match_witness :
  ("Customer" ∈ ["Customer"; "Customer-A"]
   /\ "Customer-A" ∈ ["Customer"; "Customer-A"]
   /\ length (chars "Customer") < length (chars "Customer-A")
   /\ valid_at true (chars "Customer-A") 0 "Customer"
   /\ valid_at true (chars "Customer-A") 0 "Customer-A")
  /\ forall r,
       r ∈ (analyze "Customer-A" [] tt
              (recognizer_with "ORG" "name" true ["Customer"; "Customer-A"])).1 ->
       ~ (start r = 0 /\ end_ r = 0 + length (chars "Customer")).
Proof.
  assert (valid_at true (chars "Customer-A") 0 "Customer") as Hp.
  { valid_by_evaluation. }
  assert (valid_at true (chars "Customer-A") 0 "Customer-A") as Hq.
  { valid_by_evaluation. }
  assert ("Customer" ∈ ["Customer"; "Customer-A"]) as Hinp by set_solver.
  assert ("Customer-A" ∈ ["Customer"; "Customer-A"]) as Hinq by set_solver.
  assert (length (chars "Customer") < length (chars "Customer-A")) as Hlt
    by (cbn; lia).
  split; [done|].
  exact (proj2 (proj1 analyze_longest_match unit "ORG" "name" true
                  ["Customer"; "Customer-A"] "Customer-A" [] tt 0
                  "Customer" "Customer-A" Hinp Hinq Hlt Hp Hq)).
Defined.

(** C5: in case-sensitive mode a result spans an occurrence of a pattern
    character for character, and TestPattern has no match in testpattern; in
    case-insensitive mode a result spans text whose lower-case form is the
    lower-case form of a pattern, and the same text has the one match from 0
    to 11.  In both modes the span is a range of the text as given: it lies
    within it, and the characters compared are those of the text between
    start and end.  Conversely the text is folded like the patterns: in
    case-insensitive mode a result starts wherever the text, in whatever
    letter case, equals a pattern after lower-casing both, between word
    boundaries; in case-sensitive mode a result starts wherever the text
    holds a pattern character for character, between word boundaries.  So
    TestPattern is found in [Found TESTPATTERN here] and testpattern in
    TestPattern when case is ignored, and when it is not TestPattern is found
    in [Found TestPattern here] and not in TESTPATTERN. *)
Theorem analyze_case_modes :
  (forall (N : Type) entity column patterns text entities (nlp : N) r,
      r ∈ (analyze text entities nlp
             (recognizer_with entity column true patterns)).1 ->
      exists p,
        p ∈ patterns
        /\ end_ r = start r + length (chars p)
        /\ end_ r <= length (chars text)
        /\ take (length (chars p)) (drop (start r) (chars text)) = chars p)
  /\ (forall entity column entities,
        (analyze "testpattern" entities tt
           (recognizer_with entity column true ["TestPattern"])).1 = [])
  /\ (forall (N : Type) entity column patterns text entities (nlp : N) r,
        r ∈ (analyze text entities nlp
               (recognizer_with entity column false patterns)).1 ->
        exists p,
          p ∈ patterns
          /\ end_ r = start r + length (chars p)
          /\ end_ r <= length (chars text)
          /\ map PyStr.lower_char
               (take (length (chars p)) (drop (start r) (chars text)))
             = chars (PyStr.lower p))
  /\ (forall entity column entities,
        (analyze "testpattern" entities tt
           (recognizer_with entity column false ["TestPattern"])).1
        = [{| entity_type := entity; start := 0; end_ := 11; score := 1 |}])
  /\ (forall (N : Type) entity column patterns text entities (nlp : N) i p,
        p ∈ patterns ->
        i < length (chars text) ->
        Scanner.boundary (char_before (chars text) i) = true ->
        i + length (chars p) <= length (chars text) ->
        map PyStr.lower_char (take (length (chars p)) (drop i (chars text)))
        = chars (PyStr.lower p) ->
        Scanner.boundary (chars text !! (i + length (chars p))) = true ->
        exists r,
          r ∈ (analyze text entities nlp
                 (recognizer_with entity column false patterns)).1
          /\ start r = i /\ i + length (chars p) <= end_ r)
  /\ (forall (N : Type) entity column patterns text entities (nlp : N) i p,
        p ∈ patterns ->
        i < length (chars text) ->
        Scanner.boundary (char_before (chars text) i) = true ->
        i + length (chars p) <= length (chars text) ->
        take (length (chars p)) (drop i (chars text)) = chars p ->
        Scanner.boundary (chars text !! (i + length (chars p))) = true ->
        exists r,
          r ∈ (analyze text entities nlp
                 (recognizer_with entity column true patterns)).1
          /\ start r = i /\ i + length (chars p) <= end_ r)
  /\ (forall entity column entities,
        (analyze "Found TESTPATTERN here" entities tt
           (recognizer_with entity column false ["TestPattern"])).1
        = [{| entity_type := entity; start := 6; end_ := 17; score := 1 |}]
        /\ (analyze "TestPattern" entities tt
              (recognizer_with entity column false ["testpattern"])).1
           = [{| entity_type := entity; start := 0; end_ := 11; score := 1 |}]
        /\ (analyze "Found TestPattern here" entities tt
              (recognizer_with entity column true ["TestPattern"])).1
           = [{| entity_type := entity; start := 6; end_ := 17; score := 1 |}]
        /\ (analyze "TESTPATTERN" entities tt
              (recognizer_with entity column true ["TestPattern"])).1 = []).
Proof.
  assert (forall (N : Type) entity column cs patterns text entities (nlp : N)
            i p,
            p ∈ patterns -> i < length (chars text) ->
            valid_at cs (chars text) i p ->
            exists r,
              r ∈ (analyze text entities nlp
                     (recognizer_with entity column cs patterns)).1
              /\ start r = i /\ i + length (chars p) <= end_ r) as Hfound.
  { intros N entity column cs patterns text entities nlp i p Hp Hi Hv.
    destruct (analyze_built_at entity column cs patterns text entities nlp
                i p Hp Hv Hi) as (longest & Hl & Hvl & Hmax & Hat).
    eexists. split_and!.
    - eapply list_elem_of_filter. rewrite Hat. apply list_elem_of_here.
    - done.
    - cbn. specialize (Hmax p Hp Hv). lia. }
  split_and!.
  - intros N entity column patterns text entities nlp r Hr.
    apply analyze_built_sound in Hr as (p & Hp & He & (_ & Hlen & Hkey & _) & _).
    exists p. rewrite !fold_key_sensitive in Hkey.
    split_and!; [done|done|lia|done].
  - done.
  - intros N entity column patterns text entities nlp r Hr.
    apply analyze_built_sound in Hr as (p & Hp & He & (_ & Hlen & Hkey & _) & _).
    exists p. rewrite chars_lower.
    split_and!; [done|done|lia|done].
  - done.
  - intros N entity column patterns text entities nlp i p Hp Hi Hb Hlen Hkey Ha.
    apply Hfound; [done|done|]. unfold valid_at. split_and!; [done|done| |done].
    rewrite chars_lower in Hkey. exact Hkey.
  - intros N entity column patterns text entities nlp i p Hp Hi Hb Hlen Hkey Ha.
    apply Hfound; [done|done|]. unfold valid_at. split_and!; [done|done| |done].
    by rewrite !fold_key_sensitive.
  - done.
Qed.

Lemma analyze_case_modes_witness :
  ({| entity_type := "E"; start := 6; end_ := 17; score := 1 |}
     ∈ (analyze "Found testpattern here" [] tt
          (recognizer_with "E" "name" false ["TestPattern"])).1
   /\ exists p,
        p ∈ ["TestPattern"]
        /\ 17 = 6 + length (chars p)
        /\ 17 <= length (chars "Found testpattern here")
        /\ map PyStr.lower_char
             (take (length (chars p)) (drop 6 (chars "Found testpattern here")))
           = chars (PyStr.lower p))
  /\ (map PyStr.lower_char
        (take (length (chars "testpattern"))
           (drop 6 (chars "Found TestPattern here")))
      = chars (PyStr.lower "testpattern")
      /\ exists r,
           r ∈ (analyze "Found TestPattern here" [] tt
                  (recognizer_with "E" "name" false ["testpattern"])).1
           /\ start r = 6 /\ 6 + length (chars "testpattern") <= end_ r).
Proof.
  assert ({| entity_type := "E"; start := 6; end_ := 17; score := 1 |}
            ∈ (analyze "Found testpattern here" [] tt
                 (recognizer_with "E" "name" false ["TestPattern"])).1) as Hin.
  { apply list_elem_of_here. }
  assert (map PyStr.lower_char
            (take (length (chars "testpattern"))
               (drop 6 (chars "Found TestPattern here")))
          = chars (PyStr.lower "testpattern")) as Hkey by reflexivity.
  split_and!; [exact Hin| |exact Hkey|].
  - exact (proj1 (proj2 (proj2 analyze_case_modes)) unit "E" "name"
             ["TestPattern"] "Found testpattern here" [] tt _ Hin).
  - apply (proj1 (proj2 (proj2 (proj2 (proj2 analyze_case_modes)))) unit "E"
             "name" ["testpattern"] "Found TestPattern here" [] tt 6
             "testpattern").
    + apply list_elem_of_here.
    + cbn; lia.
    + reflexivity.
    + cbn; lia.
    + exact Hkey.
    + reflexivity.
Defined.

(** C6: a call of [analyze] leaves the recognizer as it was, so a second
    call on the same text returns the same sequence of results; the
    sequence is ordered by ascending start offset, ties broken by ascending
    end offset. *)
Theorem analyze_deterministic_sorted :
  forall (N : Type) (self : PatternFileRecognizer) text entities (nlp : N),
    let first := analyze text entities nlp self in
    let second := analyze text entities nlp first.2 in
    first.2 = self
    /\ second.1 = first.1
    /\ second.2 = self
    /\ StronglySorted span_le first.1.
Proof.
  intros N self text entities nlp first second.
  assert (first.2 = self) as Hself by apply analyze_unchanged.
  split_and!; [done| | |].
  - unfold second. by rewrite Hself.
  - unfold second. rewrite Hself. apply analyze_unchanged.
  - unfold first. rewrite analyze_scan.
    eapply StronglySorted_map; [|apply scan_from_sorted].
    intros m m' Hlt. left. exact Hlt.
Qed.

(** ** Further properties of the loaders *)

Section SourceAccess.
Context {platform : Platform}.

(** A source that loads exists, and loading it tests the path once and
    opens it once. *)
Lemma loads_run fs column file_spec entries :
  loads fs column file_spec entries ->
  is_Some (fs (source_path file_spec))
  /\ forall tr,
       _load_file column file_spec fs tr = (Return entries, tr ++ read_once file_spec).
Proof.
  intros Hload.
  assert (is_Some (fs (source_path file_spec))
          /\ accesses_of (_load_file column file_spec) fs = read_once file_spec)
    as [Hfs Hacc].
  { revert Hload. unfold loads, value_of, accesses_of, _load_file, read_once.
    destruct file_spec as [p|p c]; cbn [source_path]; unfold bind, path_exists.
    all: destruct (fs p) as [content|] eqn:Hp.
    all: try (rewrite bool_decide_eq_false_2 by (by intros [? ?]); by cbn).
    all: rewrite bool_decide_eq_true_2 by (by eexists); cbn [negb fst snd].
    all: destruct (String.eqb _ _).
    all: unfold _load_csv, _load_txt, bind, open_read; rewrite Hp.
    all: cbv beta iota zeta.
    all: try (destruct (fieldnames _); [destruct (bool_decide _)|]).
    all: cbn; try done.
    all: intros _; split; [by eexists | done]. }
  split; [done|]. intros tr.
  rewrite (oblivious_load_file column file_spec fs tr).
  unfold loads in Hload. by rewrite Hload, Hacc.
Qed.

Lemma load_patterns_loop_run fs column files entries :
  Forall2 (loads fs column) files entries ->
  forall patterns tr,
    load_patterns_loop column files patterns fs tr
    = (Return (patterns ++ concat entries), tr ++ flat_map read_once files).
Proof.
  induction 1 as [|f l files entries Hf _ IH]; intros patterns tr; simpl.
  - by rewrite !app_nil_r.
  - apply loads_run in Hf as [_ Hf]. unfold bind. rewrite Hf, IH.
    by rewrite <- !app_assoc.
Qed.

Lemma load_allowlist_loop_run fs column files entries :
  Forall2 (loads fs column) files entries ->
  forall allowlist tr,
    load_allowlist_loop column files allowlist fs tr
    = (Return (allowlist ∪ list_to_set (concat entries)),
       tr ++ flat_map read_once files).
Proof.
  induction 1 as [|f l files entries Hf _ IH]; intros allowlist tr; simpl.
  - rewrite app_nil_r. unfold ret. do 2 f_equal. set_solver.
  - apply loads_run in Hf as [_ Hf]. unfold bind. rewrite Hf, IH.
    rewrite <- !app_assoc. do 2 f_equal.
    rewrite list_to_set_app_L. set_solver.
Qed.

Lemma load_patterns_loop_fail fs column pre entries f post e :
  Forall2 (loads fs column) pre entries ->
  value_of (_load_file column f) fs = Raise e ->
  forall patterns tr,
    load_patterns_loop column (pre ++ f :: post) patterns fs tr
    = (Raise e,
       tr ++ flat_map read_once pre ++ accesses_of (_load_file column f) fs).
Proof.
  intros Hpre Hf. induction Hpre as [|g l pre entries Hg _ IH];
    intros patterns tr; simpl.
  - unfold bind. rewrite (oblivious_load_file column f fs tr), Hf. done.
  - apply loads_run in Hg as [_ Hg]. unfold bind. rewrite Hg, IH.
    by rewrite <- !app_assoc.
Qed.

Lemma load_allowlist_loop_fail fs column pre entries f post e :
  Forall2 (loads fs column) pre entries ->
  value_of (_load_file column f) fs = Raise e ->
  forall allowlist tr,
    load_allowlist_loop column (pre ++ f :: post) allowlist fs tr
    = (Raise e,
       tr ++ flat_map read_once pre ++ accesses_of (_load_file column f) fs).
Proof.
  intros Hpre Hf. induction Hpre as [|g l pre entries Hg _ IH];
    intros allowlist tr; simpl.
  - unfold bind. rewrite (oblivious_load_file column f fs tr), Hf. done.
  - apply loads_run in Hg as [_ Hg]. unfold bind. rewrite Hg, IH.
    by rewrite <- !app_assoc.
Qed.
End SourceAccess.

(** X1: a source whose path does not exist makes [_load_file] raise
    [FileNotFoundError] naming the path as [pathlib] writes it, whatever the
    column and the form of the source; the path is tested once and never
    opened. *)
Theorem load_file_missing_raises :
  forall (platform : Platform) column file_spec (fs : filesystem) tr,
    fs (source_path file_spec) = None ->
    _load_file column file_spec fs tr
    = (Raise (FileNotFoundError
                ("File not found: " ++ path_text (source_path file_spec))),
       tr ++ [PathExists (source_path file_spec)]).
Proof.
  intros platform column file_spec fs tr Hnone.
  destruct file_spec as [p|p c]; cbn [source_path] in *.
  all: unfold _load_file, bind, path_exists; rewrite Hnone.
  all: rewrite bool_decide_eq_false_2 by (by intros [? ?]); done.
Qed.

Lemma load_file_missing_raises_witness :
  fruit_fs "Apple" "" (source_path (PathColumn "./lists//missing.txt" "word"))
  = None
  /\ _load_file (platform := text_platform) "name"
       (PathColumn "./lists//missing.txt" "word") (fruit_fs "Apple" "") []
     = (Raise (FileNotFoundError "File not found: lists/missing.txt"),
        [PathExists "./lists//missing.txt"]).
Proof.
  split; [reflexivity|].
  apply (load_file_missing_raises text_platform "name"
           (PathColumn "./lists//missing.txt" "word") (fruit_fs "Apple" "") []).
  reflexivity.
Defined.

(** X2: [_load_file] touches the path of its source only: it tests once
    whether the path exists and, if it does, opens it once; a path that does
    not exist is never opened, whatever the outcome of the call.  A source
    that loads exists. *)
Theorem load_file_accesses :
  forall (platform : Platform) column file_spec (fs : filesystem) tr,
    snd (_load_file column file_spec fs tr)
    = tr ++ match fs (source_path file_spec) with
            | Some _ => [PathExists (source_path file_spec);
                         OpenRead (source_path file_spec)]
            | None => [PathExists (source_path file_spec)]
            end
    /\ forall entries,
         fst (_load_file column file_spec fs tr) = Return entries ->
         is_Some (fs (source_path file_spec)).
Proof.
  intros platform column file_spec fs tr. split.
  - rewrite (oblivious_load_file column file_spec fs tr). cbn [snd]. f_equal.
    unfold accesses_of, _load_file.
    destruct file_spec as [p|p c]; cbn [source_path]; unfold bind, path_exists.
    all: destruct (fs p) as [content|] eqn:Hp.
    all: try (rewrite bool_decide_eq_false_2 by (by intros [? ?]); by cbn).
    all: rewrite bool_decide_eq_true_2 by (by eexists); cbn [negb fst snd].
    all: destruct (String.eqb _ _).
    all: unfold _load_csv, _load_txt, bind, open_read; rewrite Hp.
    all: cbv beta iota zeta.
    all: try (destruct (fieldnames _); [destruct (bool_decide _)|]).
    all: done.
  - intros entries Hret.
    rewrite (oblivious_load_file column file_spec fs tr) in Hret.
    cbn in Hret. by apply loads_run in Hret as [Hfs _].
Qed.

Lemma load_file_accesses_witness :
  fst (_load_file (platform := text_platform) "name" (PathOnly "patterns.txt")
         (fruit_fs ("Apple" ++ NL) "") [])
  = Return ["Apple"]
  /\ is_Some (fruit_fs ("Apple" ++ NL) "" (source_path (PathOnly "patterns.txt"))).
Proof.
  assert (fst (_load_file (platform := text_platform) "name"
                 (PathOnly "patterns.txt") (fruit_fs ("Apple" ++ NL) "") [])
          = Return ["Apple"]) as Hret by reflexivity.
  split; [exact Hret|].
  exact (proj2 (load_file_accesses text_platform "name"
                  (PathOnly "patterns.txt") (fruit_fs ("Apple" ++ NL) "") [])
               ["Apple"] Hret).
Defined.

Lemma init_run :
  forall (platform : Platform) (library : KeywordLibrary) files entity
    allowlist_files column cs fs tr allow_entries pattern_entries,
    files <> [] ->
    Forall2 (loads fs column) (default [] allowlist_files) allow_entries ->
    Forall2 (loads fs column) files pattern_entries ->
    __init__ files entity allowlist_files column cs fs tr
    = (Return (recognizer_with entity column cs
                 (filter_allowlisted cs (list_to_set (concat allow_entries))
                    (keep_first (concat pattern_entries)))),
       tr ++ flat_map read_once (default [] allowlist_files ++ files)).
Proof.
  intros platform library files entity allowlist_files column cs fs tr
    allow_entries pattern_entries Hne Hallow Hpat.
  unfold __init__. destruct files as [|f files]; [done|].
  unfold bind, _load_allowlist, _load_patterns, bind.
  rewrite (load_allowlist_loop_run fs column _ _ Hallow).
  rewrite (load_patterns_loop_run fs column _ _ Hpat).
  cbn [ret app]. rewrite dict_fromkeys_keep_first, flat_map_app, app_assoc.
  rewrite (left_id_L ∅ (∪)). done.
Qed.

(** X3: when every source loads, the constructor returns the recognizer
    built from the deduplicated patterns that survive the allowlist, and its
    file-system accesses are exactly one existence test and one open per
    source, the allowlist sources first and then the pattern sources, each
    in the order given. *)
Theorem init_reads_each_source_once :
  forall (platform : Platform) (library : KeywordLibrary) files entity
    allowlist_files column cs fs tr allow_entries pattern_entries,
    files <> [] ->
    Forall2 (loads fs column) (default [] allowlist_files) allow_entries ->
    Forall2 (loads fs column) files pattern_entries ->
    __init__ files entity allowlist_files column cs fs tr
    = (Return (recognizer_with entity column cs
                 (filter_allowlisted cs (list_to_set (concat allow_entries))
                    (keep_first (concat pattern_entries)))),
       tr ++ flat_map read_once (default [] allowlist_files ++ files)).
Proof. exact init_run. Qed.

Lemma init_reads_each_source_once_witness :
  __init__ (platform := text_platform) (library := Scanner.library)
    [PathOnly "patterns.txt"] "FRUIT" (Some [PathOnly "allowlist.txt"])
    "name" false
    (fruit_fs ("Apple" ++ NL ++ "Orange" ++ NL) ("apple" ++ NL)) []
  = (Return (recognizer_with "FRUIT" "name" false
               (filter_allowlisted false (list_to_set (concat [["apple"]]))
                  (keep_first (concat [["Apple"; "Orange"]])))),
     [] ++ flat_map read_once
             (default [] (Some [PathOnly "allowlist.txt"])
              ++ [PathOnly "patterns.txt"])).
Proof.
  apply (init_reads_each_source_once text_platform Scanner.library
           [PathOnly "patterns.txt"] "FRUIT" (Some [PathOnly "allowlist.txt"])
           "name" false
           (fruit_fs ("Apple" ++ NL ++ "Orange" ++ NL) ("apple" ++ NL)) []
           [["apple"]] [["Apple"; "Orange"]]).
  - discriminate.
  - repeat constructor.
  - repeat constructor.
Defined.

(** X4: the sources are loaded in order, the allowlist sources before the
    pattern sources, and the first one that fails ends the construction:
    its exception is raised, the sources before it were each read once, and
    no source after it is accessed. *)
Theorem init_first_failure_propagates :
  forall (platform : Platform) (library : KeywordLibrary) files entity
    allowlist_files column cs fs tr pre entries f post e,
    files <> [] ->
    default [] allowlist_files ++ files = pre ++ f :: post ->
    Forall2 (loads fs column) pre entries ->
    value_of (_load_file column f) fs = Raise e ->
    __init__ files entity allowlist_files column cs fs tr
    = (Raise e,
       tr ++ flat_map read_once pre ++ accesses_of (_load_file column f) fs).
Proof.
  intros platform library files entity allowlist_files column cs fs tr
    pre entries f post e Hne Hsplit Hpre Hf.
  unfold __init__. destruct files as [|f0 files0]; [done|].
  cbv beta match. remember (f0 :: files0) as files eqn:Hfiles.
  clear Hfiles Hne f0 files0.
  unfold bind at 1. unfold _load_allowlist.
  apply app_eq_app in Hsplit as [l [[Ha Hp]|[Ha Hp]]].
  - destruct l as [|g l].
    + (* the failing source is the first pattern source *)
      rewrite app_nil_r in Ha. cbn [app] in Hp. subst pre.
      rewrite (load_allowlist_loop_run fs column _ _ Hpre).
      unfold _load_patterns, bind. rewrite <- Hp.
      pose proof (load_patterns_loop_fail fs column [] [] f post e
                    (List.Forall2_nil _) Hf) as Hfail.
      cbn [flat_map app] in Hfail. rewrite Hfail.
      by rewrite <- app_assoc.
    + (* the failing source is an allowlist source *)
      injection Hp as <- Hpost. rewrite Ha.
      rewrite (load_allowlist_loop_fail fs column pre entries f l e Hpre Hf).
      done.
  - (* the failing source is a later pattern source *)
    subst pre. apply Forall2_app_inv_l in Hpre
      as (entries1 & entries2 & Hallow & Hl & ->).
    rewrite (load_allowlist_loop_run fs column _ _ Hallow).
    unfold _load_patterns, bind. rewrite Hp.
    rewrite (load_patterns_loop_fail fs column l entries2 f post e Hl Hf).
    rewrite flat_map_app. by rewrite <- !app_assoc.
Qed.

Lemma init_first_failure_propagates_witness :
  __init__ (platform := text_platform) (library := Scanner.library)
    [PathOnly "patterns.txt"; PathOnly "missing.txt"; PathOnly "patterns.txt"]
    "FRUIT" (Some [PathOnly "allowlist.txt"]) "name" false
    (fruit_fs ("Apple" ++ NL) ("apple" ++ NL)) []
  = (Raise (FileNotFoundError "File not found: missing.txt"),
     [] ++ flat_map read_once [PathOnly "allowlist.txt"; PathOnly "patterns.txt"]
     ++ accesses_of (_load_file (platform := text_platform) "name"
                       (PathOnly "missing.txt"))
          (fruit_fs ("Apple" ++ NL) ("apple" ++ NL))).
Proof.
  apply (init_first_failure_propagates text_platform Scanner.library
           [PathOnly "patterns.txt"; PathOnly "missing.txt";
            PathOnly "patterns.txt"]
           "FRUIT" (Some [PathOnly "allowlist.txt"]) "name" false
           (fruit_fs ("Apple" ++ NL) ("apple" ++ NL)) []
           [PathOnly "allowlist.txt"; PathOnly "patterns.txt"]
           [["apple"]; ["Apple"]] (PathOnly "missing.txt")
           [PathOnly "patterns.txt"]).
  - discriminate.
  - reflexivity.
  - repeat constructor.
  - reflexivity.
Defined.

Section FileEntries.
Context {platform : Platform}.

Lemma load_txt_lines_filter lines patterns :
  load_txt_lines lines patterns
  = patterns ++ List.filter kept_line (map PyStr.strip lines).
Proof.
  revert patterns. induction lines as [|line lines IH]; intros patterns.
  - by rewrite app_nil_r.
  - cbn [load_txt_lines map List.filter]. fold (kept_line (PyStr.strip line)).
    destruct (kept_line (PyStr.strip line)); rewrite IH; [|done].
    by rewrite <- app_assoc.
Qed.

Lemma strip_blank_value value :
  PyStr.truthy value && PyStr.truthy (PyStr.strip value)
  = bool_decide (PyStr.strip value <> "").
Proof.
  destruct value as [|c value]; [done|]. cbn [PyStr.truthy andb].
  destruct (PyStr.strip (String c value)) eqn:Hs; cbn [PyStr.truthy].
  - by rewrite bool_decide_eq_false_2 by (by intros ?).
  - by rewrite bool_decide_eq_true_2.
Qed.

Lemma load_csv_rows_omap column rs patterns :
  load_csv_rows column rs patterns = patterns ++ omap (csv_entry column) rs.
Proof.
  revert patterns. induction rs as [|row rs IH]; intros patterns.
  - by rewrite app_nil_r.
  - cbn [load_csv_rows omap list_omap]. unfold csv_entry at 1.
    destruct (row column) as [value|]; [|apply IH].
    rewrite strip_blank_value.
    destruct (decide (PyStr.strip value = "")) as [Hs|Hs].
    + rewrite bool_decide_eq_false_2 by (by intros ?). apply IH.
    + rewrite bool_decide_eq_true_2 by done. rewrite IH.
      by rewrite <- app_assoc.
Qed.
End FileEntries.

(** X5: [_load_txt] opens the file once and yields, in the order of the
    lines, the stripped form of every line whose stripped form is neither
    empty nor starts with the comment mark; so no entry is empty, none is a
    comment, and stripping an entry again changes nothing. *)
Theorem load_txt_entries :
  forall path (fs : filesystem) content tr,
    fs path = Some content ->
    _load_txt path fs tr
    = (Return (List.filter kept_line
                 (map PyStr.strip (PyStr.readlines content))),
       tr ++ [OpenRead path])
    /\ Forall (fun entry =>
                 entry <> ""
                 /\ PyStr.startswith "#" entry = false
                 /\ PyStr.strip entry = entry)
         (List.filter kept_line (map PyStr.strip (PyStr.readlines content))).
Proof.
  intros path fs content tr Hfs. split.
  - unfold _load_txt, bind, open_read. rewrite Hfs. cbn [ret].
    by rewrite load_txt_lines_filter.
  - apply Forall_forall. intros entry Hin.
    apply list_elem_of_In, filter_In in Hin as [Hin Hkept].
    apply in_map_iff in Hin as (line & <- & _).
    apply andb_true_iff in Hkept as [Hne Hc].
    split_and!; [by apply truthy_nonempty | by apply negb_true_iff
                | apply strip_idem].
Qed.

Lemma load_txt_entries_witness :
  _load_txt "patterns.txt"
    (fruit_fs ("# fruit" ++ NL ++ "  Apple  " ++ NL ++ NL ++ "Orange") "") []
  = (Return ["Apple"; "Orange"], [OpenRead "patterns.txt"]).
Proof.
  exact (proj1 (load_txt_entries "patterns.txt"
                  (fruit_fs ("# fruit" ++ NL ++ "  Apple  " ++ NL ++ NL
                             ++ "Orange") "")
                  _ [] eq_refl)).
Defined.

(** X6: when the header of a CSV file lacks the requested column, or the
    file has no header at all, [_load_csv] raises [ValueError] with a
    message that contains the requested column name; the file was opened
    once and no row is turned into an entry. *)
Theorem load_csv_missing_column_raises :
  forall (platform : Platform) path column (fs : filesystem) content tr,
    fs path = Some content ->
    (forall names, fieldnames (DictReader content) = Some names ->
                   column ∉ names) ->
    exists msg,
      _load_csv path column fs tr = (Raise (ValueError msg), tr ++ [OpenRead path])
      /\ occurs_in column msg.
Proof.
  intros platform path column fs content tr Hfs Hmissing.
  unfold _load_csv, bind, open_read. rewrite Hfs. cbv beta match zeta.
  destruct (fieldnames (DictReader content)) as [names|].
  - rewrite bool_decide_eq_false_2 by (by apply Hmissing).
    eexists. split; [reflexivity|].
    exists "Column '". eexists. reflexivity.
  - eexists. split; [reflexivity|].
    exists "Column '". eexists. reflexivity.
Qed.

(** X7: when the header has the requested column, [_load_csv] opens the
    file once and yields, in row order, the stripped value of that column
    for every row that has a value there which is not blank; rows that are
    short or blank in that column give no entry. *)
Theorem load_csv_entries :
  forall (platform : Platform) path column (fs : filesystem) content names tr,
    fs path = Some content ->
    fieldnames (DictReader content) = Some names ->
    column ∈ names ->
    _load_csv path column fs tr
    = (Return (omap (csv_entry column) (rows (DictReader content))),
       tr ++ [OpenRead path]).
Proof.
  intros platform path column fs content names tr Hfs Hnames Hin.
  unfold _load_csv, bind, open_read. rewrite Hfs. cbv beta match zeta.
  rewrite Hnames, bool_decide_eq_true_2 by done.
  cbn [ret]. by rewrite load_csv_rows_omap.
Qed.

Lemma load_csv_missing_column_raises_witness :
  exists msg,
    _load_csv (platform := csv_platform) "customers.csv" "nonexistent"
      (single_file "customers.csv" ("col_a,col_b" ++ NL ++ "value1,value2" ++ NL))
      []
    = (Raise (ValueError msg), [] ++ [OpenRead "customers.csv"])
    /\ occurs_in "nonexistent" msg.
Proof.
  apply (load_csv_missing_column_raises csv_platform "customers.csv"
           "nonexistent"
           (single_file "customers.csv"
              ("col_a,col_b" ++ NL ++ "value1,value2" ++ NL))
           ("col_a,col_b" ++ NL ++ "value1,value2" ++ NL) []).
  - reflexivity.
  - intros names [= <-]. vm_compute. intros Hin.
    repeat (apply elem_of_cons in Hin as [[=]|Hin]).
    by apply elem_of_nil in Hin.
Defined.

Lemma load_csv_entries_witness :
  _load_csv (platform := csv_platform) "customers.csv" "name"
    (single_file "customers.csv"
       ("name,description" ++ NL ++ " CustomerA ,First" ++ NL
        ++ " ,blank" ++ NL ++ "CustomerB,Second" ++ NL))
    []
  = (Return ["CustomerA"; "CustomerB"], [OpenRead "customers.csv"]).
Proof.
  apply (load_csv_entries csv_platform "customers.csv" "name"
           (single_file "customers.csv"
              ("name,description" ++ NL ++ " CustomerA ,First" ++ NL
               ++ " ,blank" ++ NL ++ "CustomerB,Second" ++ NL))
           ("name,description" ++ NL ++ " CustomerA ,First" ++ NL
            ++ " ,blank" ++ NL ++ "CustomerB,Second" ++ NL)
           ["name"; "description"] []).
  - reflexivity.
  - reflexivity.
  - apply list_elem_of_here.
Defined.

(** ** Further properties of deduplication and of the allowlist filter *)

Lemma filter_all {A} (P : A -> Prop) `{!forall x, Decision (P x)} (l : list A) :
  Forall P l -> filter P l = l.
Proof.
  induction 1 as [|x l Hx _ IH]; [done|].
  by rewrite filter_cons_True, IH.
Qed.

Lemma filter_sublist_impl {A} (P Q : A -> Prop)
    `{!forall x, Decision (P x)} `{!forall x, Decision (Q x)} (l : list A) :
  (forall x, P x -> Q x) -> filter P l `sublist_of` filter Q l.
Proof.
  intros HPQ. induction l as [|x l IH]; [done|].
  destruct (decide (P x)) as [Hx|Hx].
  - rewrite !filter_cons_True by auto. by apply sublist_skip.
  - rewrite (filter_cons_False P) by done.
    destruct (decide (Q x)).
    + rewrite filter_cons_True by done. by apply sublist_cons.
    + by rewrite filter_cons_False.
Qed.

Lemma filter_allowlisted_empty cs (patterns : list string) :
  filter_allowlisted cs ∅ patterns = patterns.
Proof.
  rewrite filter_allowlisted_spec. apply filter_all, Forall_forall.
  intros p _ (a & Ha & _). by apply not_elem_of_empty in Ha.
Qed.

Lemma keep_first_NoDup (l : list string) : NoDup l -> keep_first l = l.
Proof.
  induction l as [|k l IH] using rev_ind; [done|].
  intros (Hl & Hk & _)%NoDup_app. rewrite keep_first_snoc, IH by done.
  rewrite bool_decide_eq_false_2; [done|].
  intros Hin. apply (Hk k Hin). apply list_elem_of_here.
Qed.

Lemma keep_first_prefix (l1 l2 : list string) :
  keep_first l1 `prefix_of` keep_first (l1 ++ l2).
Proof.
  induction l2 as [|k l2 IH] using rev_ind.
  - by rewrite app_nil_r.
  - rewrite app_assoc, keep_first_snoc. by apply prefix_app_r.
Qed.

(** X8: without allowlist sources ([None] or an empty list) and with every
    pattern source loading, the constructor keeps every deduplicated
    pattern, in either mode, and accesses the pattern sources only. *)
Theorem init_without_allowlist_keeps_all :
  forall (platform : Platform) (library : KeywordLibrary) files entity
    allowlist_files column cs fs tr pattern_entries,
    files <> [] ->
    default [] allowlist_files = [] ->
    Forall2 (loads fs column) files pattern_entries ->
    __init__ files entity allowlist_files column cs fs tr
    = (Return (recognizer_with entity column cs
                 (keep_first (concat pattern_entries))),
       tr ++ flat_map read_once files).
Proof.
  intros platform library files entity allowlist_files column cs fs tr
    pattern_entries Hne Hnone Hpat.
  rewrite (init_run platform library files entity allowlist_files column cs
             fs tr [] pattern_entries Hne); [|by rewrite Hnone|done].
  rewrite Hnone. cbn [concat app]. rewrite list_to_set_nil.
  by rewrite filter_allowlisted_empty.
Qed.

Lemma init_without_allowlist_keeps_all_witness :
  __init__ (platform := text_platform) (library := Scanner.library)
    [PathOnly "patterns.txt"] "FRUIT" None "name" true
    (fruit_fs ("Apple" ++ NL ++ "Orange" ++ NL ++ "Apple" ++ NL) "") []
  = (Return (recognizer_with "FRUIT" "name" true ["Apple"; "Orange"]),
     [PathExists "patterns.txt"; OpenRead "patterns.txt"]).
Proof.
  apply (init_without_allowlist_keeps_all text_platform Scanner.library
           [PathOnly "patterns.txt"] "FRUIT" None "name" true
           (fruit_fs ("Apple" ++ NL ++ "Orange" ++ NL ++ "Apple" ++ NL) "") []
           [["Apple"; "Orange"; "Apple"]]).
  - discriminate.
  - reflexivity.
  - repeat constructor.
Defined.

(** X9: the case-insensitive filter removes at least what the case-sensitive
    filter removes: for the same allowlist and patterns, the patterns that
    survive in case-insensitive mode are a sublist of those that survive in
    case-sensitive mode. *)
Theorem allowlist_filter_insensitive_removes_more :
  forall (allowlist : gset string) (patterns : list string),
    filter_allowlisted false allowlist patterns
      `sublist_of` filter_allowlisted true allowlist patterns.
Proof.
  intros allowlist patterns. rewrite !filter_allowlisted_spec.
  apply filter_sublist_impl. intros p Hp (a & Ha & Hkey). apply Hp.
  exists a. split; [done|]. cbn in Hkey |- *. by rewrite Hkey.
Qed.

(** X10: when the entries of the sources, taken together, have no
    duplicates, [_load_patterns] returns them all, in the order of the
    sources and of the entries in each source. *)
Theorem load_patterns_without_duplicates :
  forall (platform : Platform) column files fs tr entries,
    Forall2 (loads fs column) files entries ->
    NoDup (concat entries) ->
    fst (_load_patterns column files fs tr) = Return (concat entries).
Proof.
  intros platform column files fs tr entries Hload Hnodup.
  rewrite (load_patterns_value fs column files entries tr Hload).
  by rewrite keep_first_NoDup.
Qed.

Lemma load_patterns_without_duplicates_witness :
  fst (_load_patterns (platform := text_platform) "name"
         [PathOnly "patterns.txt"; PathOnly "allowlist.txt"]
         (fruit_fs ("Pear" ++ NL ++ "Apple" ++ NL) ("Fig" ++ NL)) [])
  = Return (concat [["Pear"; "Apple"]; ["Fig"]]).
Proof.
  apply (load_patterns_without_duplicates text_platform "name"
           [PathOnly "patterns.txt"; PathOnly "allowlist.txt"]
           (fruit_fs ("Pear" ++ NL ++ "Apple" ++ NL) ("Fig" ++ NL)) []
           [["Pear"; "Apple"]; ["Fig"]]).
  - repeat constructor.
  - cbn. repeat (constructor; [set_solver|]). constructor.
Defined.

(** X11: appending pattern sources never removes or reorders what the
    earlier sources gave: the patterns loaded from a list of sources are a
    prefix of the patterns loaded from that list followed by more sources. *)
Theorem load_patterns_appending_sources :
  forall (platform : Platform) column files more fs tr tr' entries more_entries,
    Forall2 (loads fs column) files entries ->
    Forall2 (loads fs column) more more_entries ->
    exists ps ps',
      fst (_load_patterns column files fs tr) = Return ps
      /\ fst (_load_patterns column (files ++ more) fs tr') = Return ps'
      /\ ps `prefix_of` ps'.
Proof.
  intros platform column files more fs tr tr' entries more_entries Hf Hm.
  exists (keep_first (concat entries)),
         (keep_first (concat (entries ++ more_entries))).
  split_and!.
  - by apply load_patterns_value.
  - apply load_patterns_value. by apply Forall2_app.
  - rewrite concat_app. apply keep_first_prefix.
Qed.

Lemma load_patterns_appending_sources_witness :
  exists ps ps',
    fst (_load_patterns (platform := text_platform) "name"
           [PathOnly "patterns.txt"]
           (fruit_fs ("Pear" ++ NL ++ "Apple" ++ NL) ("Apple" ++ NL ++ "Fig" ++ NL))
           [])
    = Return ps
    /\ fst (_load_patterns (platform := text_platform) "name"
              ([PathOnly "patterns.txt"] ++ [PathOnly "allowlist.txt"])
              (fruit_fs ("Pear" ++ NL ++ "Apple" ++ NL)
                        ("Apple" ++ NL ++ "Fig" ++ NL)) [])
       = Return ps'
    /\ ps `prefix_of` ps'.
Proof.
  apply (load_patterns_appending_sources text_platform "name"
           [PathOnly "patterns.txt"] [PathOnly "allowlist.txt"]
           (fruit_fs ("Pear" ++ NL ++ "Apple" ++ NL)
                     ("Apple" ++ NL ++ "Fig" ++ NL)) [] []
           [["Pear"; "Apple"]] [["Apple"; "Fig"]]).
  - repeat constructor.
  - repeat constructor.
Defined.

(** ** Further properties of the constructor and of [analyze] *)

Section FinalPatterns.
Context {platform : Platform}.

Lemma loaded_entries_trimmed fs column files entries :
  Forall2 (loads fs column) files entries -> Forall trimmed (concat entries).
Proof.
  induction 1 as [|f l files entries Hf _ IH]; [constructor|].
  cbn [concat]. apply Forall_app. split; [|done].
  by apply loads_trimmed in Hf.
Qed.

Lemma elem_of_loaded_entries fs column files entries x :
  Forall2 (loads fs column) files entries ->
  x ∈ concat entries
  <-> exists f l, f ∈ files /\ loads fs column f l /\ x ∈ l.
Proof.
  induction 1 as [|f l files entries Hf _ IH]; cbn [concat].
  - split; [by intros ?%elem_of_nil|]. by intros (f & l & ?%elem_of_nil & _).
  - rewrite elem_of_app, IH. split.
    + intros [Hx|(g & k & Hg & Hk & Hx)].
      * exists f, l. split_and!; [apply list_elem_of_here|done|done].
      * exists g, k. split_and!; [by apply list_elem_of_further|done|done].
    + intros (g & k & Hg & Hk & Hx).
      apply elem_of_cons in Hg as [->|Hg].
      * left. unfold loads in Hf, Hk. rewrite Hf in Hk. by injection Hk as ->.
      * right. by exists g, k.
Qed.
End FinalPatterns.

(** X12: the patterns the constructor hands to the keyword processor are
    exactly the entries of the pattern sources whose comparison key is the
    key of no allowlist entry; the list has no duplicates, and every pattern
    in it is non-empty and free of surrounding blanks. *)
Theorem init_final_patterns :
  forall (platform : Platform) (library : KeywordLibrary) files entity
    allowlist_files column cs fs tr allow_entries pattern_entries,
    files <> [] ->
    Forall2 (loads fs column) (default [] allowlist_files) allow_entries ->
    Forall2 (loads fs column) files pattern_entries ->
    exists patterns,
      fst (__init__ files entity allowlist_files column cs fs tr)
      = Return (recognizer_with entity column cs patterns)
      /\ NoDup patterns
      /\ Forall trimmed patterns
      /\ forall p,
           p ∈ patterns
           <-> p ∈ concat pattern_entries
               /\ ~ exists a, a ∈ concat allow_entries
                              /\ comparison_key cs a = comparison_key cs p.
Proof.
  intros platform library files entity allowlist_files column cs fs tr
    allow_entries pattern_entries Hne Hallow Hpat.
  eexists. split; [by apply init_value|].
  rewrite filter_allowlisted_spec. split_and!.
  - apply NoDup_filter, NoDup_keep_first.
  - apply Forall_forall. intros p [_ Hp]%list_elem_of_filter.
    rewrite elem_of_keep_first in Hp.
    revert p Hp. apply Forall_forall. by eapply loaded_entries_trimmed.
  - intros p. rewrite list_elem_of_filter, elem_of_keep_first.
    unfold allowlisted, set_Exists. setoid_rewrite elem_of_list_to_set. tauto.
Qed.

Lemma init_final_patterns_witness :
  exists patterns,
    fst (__init__ (platform := text_platform) (library := Scanner.library)
           [PathOnly "patterns.txt"] "FRUIT" (Some [PathOnly "allowlist.txt"])
           "name" false
           (fruit_fs ("Apple" ++ NL ++ "Orange" ++ NL) ("apple" ++ NL)) [])
    = Return (recognizer_with "FRUIT" "name" false patterns)
    /\ NoDup patterns
    /\ Forall trimmed patterns
    /\ forall p,
         p ∈ patterns
         <-> p ∈ concat [["Apple"; "Orange"]]
             /\ ~ exists a, a ∈ concat [["apple"]]
                            /\ comparison_key false a = comparison_key false p.
Proof.
  apply (init_final_patterns text_platform Scanner.library
           [PathOnly "patterns.txt"] "FRUIT" (Some [PathOnly "allowlist.txt"])
           "name" false
           (fruit_fs ("Apple" ++ NL ++ "Orange" ++ NL) ("apple" ++ NL)) []
           [["apple"]] [["Apple"; "Orange"]]).
  - discriminate.
  - repeat constructor.
  - repeat constructor.
Defined.

(** X13: the recognizer the constructor returns does not depend on the
    order of the allowlist sources nor on how often each is listed: two
    lists of allowlist sources with the same members give the same
    recognizer. *)
Theorem init_allowlist_order_irrelevant :
  forall (platform : Platform) (library : KeywordLibrary) files entity
    allowlist1 allowlist2 column cs fs tr tr' entries1 entries2 pattern_entries,
    files <> [] ->
    (forall f, f ∈ allowlist1 <-> f ∈ allowlist2) ->
    Forall2 (loads fs column) allowlist1 entries1 ->
    Forall2 (loads fs column) allowlist2 entries2 ->
    Forall2 (loads fs column) files pattern_entries ->
    fst (__init__ files entity (Some allowlist1) column cs fs tr)
    = fst (__init__ files entity (Some allowlist2) column cs fs tr').
Proof.
  intros platform library files entity allowlist1 allowlist2 column cs fs
    tr tr' entries1 entries2 pattern_entries Hne Hsame H1 H2 Hpat.
  rewrite (init_value files entity (Some allowlist1) column cs fs tr
             entries1 pattern_entries Hne H1 Hpat).
  rewrite (init_value files entity (Some allowlist2) column cs fs tr'
             entries2 pattern_entries Hne H2 Hpat).
  do 3 f_equal. apply set_eq. intros x.
  rewrite !elem_of_list_to_set.
  rewrite (elem_of_loaded_entries fs column _ _ x H1).
  rewrite (elem_of_loaded_entries fs column _ _ x H2).
  by setoid_rewrite Hsame.
Qed.

Lemma init_allowlist_order_irrelevant_witness :
  fst (__init__ (platform := text_platform) (library := Scanner.library)
         [PathOnly "patterns.txt"] "FRUIT"
         (Some [PathOnly "allowlist.txt"; PathOnly "patterns.txt"])
         "name" false
         (fruit_fs ("Apple" ++ NL ++ "Orange" ++ NL) ("apple" ++ NL)) [])
  = fst (__init__ (platform := text_platform) (library := Scanner.library)
           [PathOnly "patterns.txt"] "FRUIT"
           (Some [PathOnly "patterns.txt"; PathOnly "allowlist.txt";
                  PathOnly "patterns.txt"])
           "name" false
           (fruit_fs ("Apple" ++ NL ++ "Orange" ++ NL) ("apple" ++ NL)) []).
Proof.
  apply (init_allowlist_order_irrelevant text_platform Scanner.library
           [PathOnly "patterns.txt"] "FRUIT"
           [PathOnly "allowlist.txt"; PathOnly "patterns.txt"]
           [PathOnly "patterns.txt"; PathOnly "allowlist.txt";
            PathOnly "patterns.txt"]
           "name" false
           (fruit_fs ("Apple" ++ NL ++ "Orange" ++ NL) ("apple" ++ NL)) [] []
           [["apple"]; ["Apple"; "Orange"]]
           [["Apple"; "Orange"]; ["apple"]; ["Apple"; "Orange"]]
           [["Apple"; "Orange"]]).
  - discriminate.
  - intros f. set_solver.
  - repeat constructor.
  - repeat constructor.
  - repeat constructor.
Defined.

(** X14: whatever the keyword library reports, [analyze] returns one result
    per reported match, in the order of the matches, with the span of the
    match, the entity type the recognizer was built with and score 1; the
    name of the matched keyword is dropped. *)
Theorem analyze_one_result_per_match :
  forall (library : KeywordLibrary) (N : Type) text entities (nlp : N)
    (self : PatternFileRecognizer),
    let matches := (extract_keywords text (keyword_processor self)).1 in
    let results := (analyze text entities nlp self).1 in
    length results = length matches
    /\ map (fun r => (start r, end_ r)) results
       = map (fun m => (m.1.2, m.2)) matches
    /\ Forall (fun r => entity_type r = self_entity_type self
                        /\ score r = 1%Q) results.
Proof.
  intros library N text entities nlp self matches results.
  unfold results. rewrite analyze_results. fold matches. split_and!.
  - apply length_map.
  - rewrite map_map. done.
  - apply Forall_map, Forall_true. done.
Qed.

(** ** Lines of a text file *)

Section Lines.
Import PyStr.

Lemma append_cons c (s t : string) :
  (String c s ++ t)%string = String c (s ++ t)%string.
Proof. reflexivity. Qed.

Lemma append_nil_l (t : string) : ("" ++ t)%string = t.
Proof. reflexivity. Qed.

Lemma append_nil_r (s : string) : (s ++ "")%string = s.
Proof.
  induction s as [|c s IH]; [done|]. rewrite append_cons. by f_equal.
Qed.

Lemma append_assoc (s t u : string) :
  ((s ++ t) ++ u)%string = (s ++ t ++ u)%string.
Proof.
  induction s as [|c s IH]; [done|]. rewrite !append_cons. by f_equal.
Qed.

Lemma string_of_list_ascii_app (l k : list ascii) :
  string_of_list_ascii (l ++ k)
  = (string_of_list_ascii l ++ string_of_list_ascii k)%string.
Proof.
  induction l as [|c l IH]; [done|].
  cbn [app string_of_list_ascii]. rewrite append_cons. by f_equal.
Qed.

Lemma lstrip_snoc_space s c :
  isspace c = true ->
  lstrip (s ++ String c "")
  = match lstrip s with
    | EmptyString => EmptyString
    | r => (r ++ String c "")%string
    end.
Proof.
  intros Hc. induction s as [|d s IH].
  - rewrite append_nil_l. cbn [lstrip]. by rewrite Hc.
  - rewrite append_cons. cbn [lstrip].
    destruct (isspace d); [exact IH | done].
Qed.

Lemma rstrip_snoc_space s c :
  isspace c = true -> rstrip (s ++ String c "") = rstrip s.
Proof.
  intros Hc. induction s as [|d s IH].
  - rewrite append_nil_l. cbn [rstrip]. by rewrite Hc.
  - rewrite append_cons. cbn [rstrip]. by rewrite IH.
Qed.

(** A blank at the end of a line does not change what [strip] returns. *)
Lemma strip_snoc_space s c :
  isspace c = true -> strip (s ++ String c "") = strip s.
Proof.
  intros Hc. unfold strip. rewrite lstrip_snoc_space by done.
  destruct (lstrip s) as [|d r]; [done|].
  by rewrite rstrip_snoc_space.
Qed.

Lemma one_line_lstrip s : one_line s = true -> one_line (lstrip s) = true.
Proof.
  induction s as [|c s IH]; [done|]. cbn [one_line lstrip].
  intros [Hc Hs]%andb_true_iff. destruct (isspace c); [by apply IH|].
  cbn [one_line]. by rewrite Hc, Hs.
Qed.

Lemma one_line_rstrip s : one_line s = true -> one_line (rstrip s) = true.
Proof.
  induction s as [|c s IH]; [done|]. cbn [one_line rstrip].
  intros [Hc Hs]%andb_true_iff. specialize (IH Hs).
  destruct (rstrip s) as [|d r].
  - destruct (isspace c); [done|]. cbn [one_line]. by rewrite Hc.
  - cbn [one_line] in IH |- *. by rewrite Hc, IH.
Qed.

Lemma one_line_strip s : one_line s = true -> one_line (strip s) = true.
Proof. intros Hs. by apply one_line_rstrip, one_line_lstrip. Qed.

Lemma one_line_of_list (l : list ascii) :
  Forall (fun c => is_break c = false) l ->
  one_line (string_of_list_ascii l) = true.
Proof.
  induction 1 as [|c l Hc _ IH]; [done|]. cbn. by rewrite Hc, IH.
Qed.

Lemma read_line_emit (cur : list ascii) :
  Forall (fun c => is_break c = false) cur ->
  read_line (string_of_list_ascii (rev (LF :: cur))).
Proof.
  intros Hcur. exists (string_of_list_ascii (rev cur)). split.
  - apply one_line_of_list. by apply Forall_rev.
  - right. cbn [rev]. by rewrite string_of_list_ascii_app.
Qed.

Lemma readlines_from_read_line n s cur :
  String.length s <= n ->
  Forall (fun c => is_break c = false) cur ->
  Forall read_line (readlines_from cur s).
Proof.
  revert s cur. induction n as [|n IH]; intros s cur Hn Hcur.
  - destruct s; [|cbn in Hn; lia]. cbn [readlines_from].
    destruct cur as [|c cur]; [constructor|].
    apply Forall_singleton. exists (string_of_list_ascii (rev (c :: cur))).
    split; [|by left]. apply one_line_of_list. by apply Forall_rev.
  - destruct s as [|c s].
    { cbn [readlines_from]. destruct cur as [|c cur]; [constructor|].
      apply Forall_singleton. exists (string_of_list_ascii (rev (c :: cur))).
      split; [|by left]. apply one_line_of_list. by apply Forall_rev. }
    cbn [String.length] in Hn. cbn [readlines_from].
    destruct (Ascii.eqb c LF) eqn:Hlf.
    { constructor; [by apply read_line_emit|]. apply IH; [lia|constructor]. }
    destruct (Ascii.eqb c CR) eqn:Hcr.
    + destruct s as [|c' s].
      * apply Forall_singleton. by apply read_line_emit.
      * cbn [String.length] in Hn.
        destruct (Ascii.eqb c' LF); (constructor; [by apply read_line_emit|]).
        -- apply IH; [lia|constructor].
        -- apply IH; [cbn [String.length]; lia|constructor].
    + apply IH; [lia|]. constructor; [|done].
      unfold is_break. by rewrite Hlf, Hcr.
Qed.

Lemma is_break_space c : is_break c = true -> isspace c = true.
Proof.
  unfold is_break. intros [Hc|Hc]%orb_true_iff.
  all: apply Ascii.eqb_eq in Hc; by subst.
Qed.

Lemma read_line_strip line : read_line line -> one_line (strip line) = true.
Proof.
  intros (body & Hbody & [->| ->]).
  - by apply one_line_strip.
  - rewrite strip_snoc_space by done. by apply one_line_strip.
Qed.

Lemma readlines_from_one_line line cur rest :
  one_line line = true ->
  readlines_from cur (line ++ rest)
  = readlines_from (rev (list_ascii_of_string line) ++ cur) rest.
Proof.
  revert cur. induction line as [|c line IH]; intros cur; [done|].
  cbn [one_line]. intros [Hc Hline]%andb_true_iff.
  apply negb_true_iff in Hc. unfold is_break in Hc.
  apply orb_false_iff in Hc as [Hlf Hcr].
  rewrite append_cons. cbn [readlines_from list_ascii_of_string rev].
  rewrite Hlf, Hcr, IH by done. by rewrite <- app_assoc.
Qed.

Lemma file_text_no_leading_feed lines final :
  Forall (fun line => one_line line = true) lines ->
  one_line final = true ->
  no_leading_feed (file_text EndCR lines final).
Proof.
  intros Hlines Hfinal.
  assert (forall s, one_line s = true ->
            forall t, no_leading_feed t -> no_leading_feed (s ++ t)) as Happ.
  { intros [|c s]; [done|]. cbn [one_line].
    intros [Hc _]%andb_true_iff t _. rewrite append_cons. cbn [no_leading_feed].
    apply negb_true_iff in Hc. unfold is_break in Hc.
    by apply orb_false_iff in Hc as [Hlf _]. }
  destruct Hlines as [|line lines Hline _]; cbn [file_text].
  - rewrite <- (append_nil_r final). by apply Happ.
  - by apply Happ.
Qed.

Lemma readlines_from_line_end e cur rest :
  (e = EndCR -> no_leading_feed rest) ->
  readlines_from cur (line_end_text e ++ rest)
  = string_of_list_ascii (rev (LF :: cur)) :: readlines_from [] rest.
Proof.
  intros Hrest. destruct e; cbn [line_end_text];
    rewrite ?append_cons, append_nil_l; cbn [readlines_from].
  - done.
  - change (Ascii.eqb CR LF) with false. change (Ascii.eqb CR CR) with true.
    cbv beta match. specialize (Hrest eq_refl).
    destruct rest as [|c rest]; [done|]. cbn in Hrest. by rewrite Hrest.
  - change (Ascii.eqb CR LF) with false. change (Ascii.eqb CR CR) with true.
    change (Ascii.eqb LF LF) with true. done.
Qed.

Lemma readlines_file_text e lines final :
  Forall (fun line => one_line line = true) lines ->
  one_line final = true ->
  readlines (file_text e lines final)
  = map (fun line => (line ++ String LF "")%string) lines
    ++ (if decide (final = "") then [] else [final]).
Proof.
  intros Hlines Hfinal. unfold readlines.
  induction Hlines as [|line lines Hline Hlines IH]; cbn [file_text map app].
  - rewrite <- (append_nil_r final) at 1.
    rewrite readlines_from_one_line by done. rewrite app_nil_r.
    cbn [readlines_from]. destruct final as [|c final]; [done|].
    rewrite decide_False by done.
    destruct (rev (list_ascii_of_string (String c final))) eqn:Hrev.
    + apply (f_equal length) in Hrev. rewrite length_rev in Hrev.
      cbn in Hrev. lia.
    + rewrite <- Hrev, rev_involutive.
      by rewrite string_of_list_ascii_of_string.
  - rewrite readlines_from_one_line by done. rewrite app_nil_r.
    rewrite readlines_from_line_end.
    + rewrite IH. f_equal. cbn [rev]. rewrite rev_involutive.
      rewrite string_of_list_ascii_app.
      by rewrite string_of_list_ascii_of_string.
    + intros ->. by apply file_text_no_leading_feed.
Qed.
End Lines.

(** X15: what a text file yields does not depend on its line ends.  For
    lines without line ends, written one after the other with LF, CR or
    CR LF after each, followed by a last line with no line end (possibly
    empty), [_load_txt] yields the kept stripped forms of these lines, the
    last one included. *)
Theorem load_txt_any_line_end :
  forall e lines final path (fs : filesystem) tr,
    Forall (fun line => one_line line = true) lines ->
    one_line final = true ->
    fs path = Some (file_text e lines final) ->
    _load_txt path fs tr
    = (Return (List.filter kept_line (map PyStr.strip (lines ++ [final]))),
       tr ++ [OpenRead path]).
Proof.
  intros e lines final path fs tr Hlines Hfinal Hfs.
  unfold _load_txt, bind, open_read. rewrite Hfs. cbn [ret].
  rewrite load_txt_lines_filter, readlines_file_text by done.
  cbn [app]. unfold ret. do 2 f_equal.
  rewrite !map_app, !List.filter_app, map_map. f_equal.
  - f_equal. apply map_ext. intros line. by apply strip_snoc_space.
  - destruct (decide (final = "")) as [->|Hne]; done.
Qed.

Lemma load_txt_any_line_end_witness :
  _load_txt "patterns.txt"
    (single_file "patterns.txt"
       (file_text EndCRLF ["# fruit"; " Apple "; ""] "Orange")) []
  = (Return ["Apple"; "Orange"], [OpenRead "patterns.txt"]).
Proof.
  apply (load_txt_any_line_end EndCRLF ["# fruit"; " Apple "; ""] "Orange"
           "patterns.txt"
           (single_file "patterns.txt"
              (file_text EndCRLF ["# fruit"; " Apple "; ""] "Orange")) []).
  - repeat constructor.
  - reflexivity.
  - reflexivity.
Defined.

(** X16: an entry of a text file never contains a line end: whatever the
    file holds, no entry that [_load_txt] yields has a line feed or a
    carriage return in it. *)
Theorem load_txt_entries_single_line :
  forall path (fs : filesystem) tr entries,
    fst (_load_txt path fs tr) = Return entries ->
    Forall (fun entry => one_line entry = true) entries.
Proof.
  intros path fs tr entries. unfold _load_txt, bind, open_read.
  destruct (fs path) as [content|]; [|done]. cbn [ret fst].
  intros [= <-]. rewrite load_txt_lines_filter. cbn [app].
  apply Forall_forall. intros entry Hin.
  apply list_elem_of_In, filter_In in Hin as [Hin _].
  apply in_map_iff in Hin as (line & <- & Hline).
  apply read_line_strip.
  pose proof (readlines_from_read_line (String.length content) content []
                (le_n _) (List.Forall_nil _)) as Hlines.
  rewrite Forall_forall in Hlines. apply Hlines. by apply list_elem_of_In.
Qed.

Lemma load_txt_entries_single_line_witness :
  fst (_load_txt "patterns.txt"
         (single_file "patterns.txt" (file_text EndCR ["Apple"] "Orange")) [])
  = Return ["Apple"; "Orange"]
  /\ Forall (fun entry => one_line entry = true) ["Apple"; "Orange"].
Proof.
  assert (fst (_load_txt "patterns.txt"
                 (single_file "patterns.txt"
                    (file_text EndCR ["Apple"] "Orange")) [])
          = Return ["Apple"; "Orange"]) as Hret by reflexivity.
  split; [exact Hret|].
  exact (load_txt_entries_single_line "patterns.txt" _ [] _ Hret).
Defined.
